(** * upSale admin dashboard: live job-feed synchronisation and notifications

    Shallow embedding of the polling / diff / merge / notification logic of
    [new-ui-upwork/src/pages/admin/JobsPage.tsx].

    React state ([useState]) and refs ([useRef]) of the component are the
    fields of one record [State]; every callback of the component is a
    function from the state before the call to the state after it, together
    with the effects it performed on the platform (native alerts, toasts).
    The outcome of the awaited network call is an argument of the callback. *)

From stdpp Require Import gmap strings list pretty.

Open Scope string_scope.
Open Scope list_scope.
Open Scope nat_scope.

(** ** JavaScript values used as job identifiers

    A job comes out of [response.json()] and is typed [any].  Its [id] is a
    JSON number, a JSON string, [null], or absent ([undefined]).  Numbers are
    integers of magnitude below 2^53, the range in which a JSON number is
    read back exactly and [String(n)] is its decimal numeral.  The
    properties below use of [String] only that it is a function; the worked
    inputs use small integers. *)

Inductive JsValue : Type :=
  | JsUndefined
  | JsNull
  | JsNumber (z : Z)
  | JsString (s : string).

#[global] Instance JsValue_eq_dec : EqDecision JsValue.
Proof. solve_decision. Defined.

(** [String(v)] *)
Definition String_of (v : JsValue) : string :=
  match v with
  | JsUndefined => "undefined"
  | JsNull => "null"
  | JsNumber z => pretty z
  | JsString s => s
  end.

(** [v != null] (loose inequality: false for [null] and for [undefined]) *)
Definition not_nullish (v : JsValue) : bool :=
  match v with
  | JsUndefined | JsNull => false
  | _ => true
  end.

(** ** Jobs

    The fields the feed logic reads.  A job is untyped JSON: [title] and
    [description] are strings or missing ([None] for [null] and for an
    absent field). *)

Record Job : Type := mkJob {
  id : JsValue;
  title : option string;
  description : option string;
  status : string
}.

#[global] Instance Job_eq_dec : EqDecision Job.
Proof. solve_decision. Defined.

(** [String(job.id)], the key every set-membership test of the page uses. *)
Definition jobKey (job : Job) : string := String_of (id job).

(** [new Set(data.map(job => String(job.id)))] *)
Definition idSet (data : list Job) : gset string :=
  list_to_set (jobKey <$> data).

(** [job.description || 'No description available'] *)
Definition descriptionOrDefault (job : Job) : string :=
  match description job with
  | Some "" | None => "No description available"
  | Some d => d
  end.

Definition sampleJobs : list Job :=
  [ mkJob (JsNumber 1)
      (Some "React Developer Needed for E-commerce Platform")
      (Some "We are looking for an experienced React developer to help us build a modern e-commerce platform. The ideal candidate should have experience with React, TypeScript, and modern web development practices.")
      "available";
    mkJob (JsNumber 2)
      (Some "WordPress Developer for Blog Redesign")
      (Some "Need a skilled WordPress developer to redesign our company blog. Must have experience with custom themes, plugins, and WordPress best practices.")
      "in-progress";
    mkJob (JsNumber 3)
      (Some "Mobile App Developer for iOS and Android")
      (Some "Looking for a mobile app developer to create a cross-platform application for both iOS and Android. Experience with React Native or Flutter is required.")
      "completed" ].

(** ** Analytics cards

    [calculateAnalytics] counts jobs per status.  Its fifth figure,
    [totalBudget], is a floating-point sum of [parseFloat(job.amount)] and is
    left out of the embedding. *)

Record Analytics : Type := mkAnalytics {
  total : nat;
  active : nat;
  completed : nat;
  pending : nat
}.

Definition countStatus (P : string → bool) (jobsData : list Job) : nat :=
  length (List.filter (λ job, P (status job)) jobsData).

Definition calculateAnalytics (jobsData : list Job) : Analytics :=
  {| total := length jobsData;
     active := countStatus (λ s, bool_decide (s = "active") || bool_decide (s = "available")) jobsData;
     completed := countStatus (λ s, bool_decide (s = "completed")) jobsData;
     pending := countStatus (λ s, bool_decide (s = "submitted") || bool_decide (s = "in-progress")) jobsData |}.

(** ** Platform: permission, alerts, toasts, network *)

Inductive Permission : Type := granted | denied | default.

#[global] Instance Permission_eq_dec : EqDecision Permission.
Proof. solve_decision. Defined.

(** The browser as the callbacks see it: the value of
    [Notification.permission], and whether [new Notification(...)] throws.
    The global [Notification] exists (the page dereferences it without a
    test at lines 173 and 338). *)
Record Platform : Type := mkPlatform {
  permission : Permission;
  constructorThrows : bool
}.

(** One constructor per [toast({...})] call site of the page;
    [NewStrongMatchJobUntitled] is the toast of line 229 when the title it
    is given as description is [undefined]. *)
Inductive ToastMsg : Type :=
  | ApiUnavailable
  | NotificationError
  | NewStrongMatchJob (description : string)
  | NewStrongMatchJobUntitled
  | NewStrongMatchJobsFound (count : nat)
  | NotificationsEnabled
  | NotificationsDisabled
  | NotificationPermissionDenied.

(** Title and variant of each toast, as the call sites give them (the
    leading pictograph of some titles is dropped). *)
Definition toastTitle (t : ToastMsg) : string :=
  match t with
  | ApiUnavailable => "API Unavailable"
  | NotificationError => "Notification Error"
  | NewStrongMatchJob _ => "New Strong Match Job!"
  | NewStrongMatchJobUntitled => "New Strong Match Job!"
  | NewStrongMatchJobsFound n =>
      pretty n +:+ " New Strong Match Job" +:+ (if decide (1 < n) then "s" else "") +:+ " Found!"
  | NotificationsEnabled => "Notifications Enabled"
  | NotificationsDisabled => "Notifications Disabled"
  | NotificationPermissionDenied => "Notification Permission Denied"
  end.

Definition toastDestructive (t : ToastMsg) : bool :=
  match t with
  | ApiUnavailable | NotificationError | NotificationPermissionDenied => true
  | _ => false
  end.

Inductive Effect : Type :=
  | NativeNotification (body : string)   (* new Notification('New Strong Match Job!', {body, ...}) *)
  | Toast (t : ToastMsg).

(** What the awaited [fetch(url)] (and [response.json()]) came to. *)
Inductive Response : Type :=
  | Ok (data : list Job)
  | HttpError (code : nat)        (* !response.ok *)
  | TransportFailure.              (* fetch rejected *)

(** ** Component state *)

Record State : Type := mkState {
  jobs : list Job;
  loading : bool;
  analytics : Analytics;
  relevanceFilter : string;
  apiError : bool;
  previousStrongMatchJobIds : gset string;     (* useRef *)
  isInitialRelevantJobsLoad : bool;            (* useRef *)
  notificationsEnabled : bool;
  storedPreference : option string;            (* localStorage['notificationsEnabled'] *)
  lastRefreshTime : Z;
  nextPollTime : Z
}.

Definition setJobs (v : list Job) (st : State) : State :=
  mkState v (loading st) (analytics st) (relevanceFilter st) (apiError st)
    (previousStrongMatchJobIds st) (isInitialRelevantJobsLoad st)
    (notificationsEnabled st) (storedPreference st) (lastRefreshTime st) (nextPollTime st).

Definition setLoading (v : bool) (st : State) : State :=
  mkState (jobs st) v (analytics st) (relevanceFilter st) (apiError st)
    (previousStrongMatchJobIds st) (isInitialRelevantJobsLoad st)
    (notificationsEnabled st) (storedPreference st) (lastRefreshTime st) (nextPollTime st).

Definition setAnalytics (v : Analytics) (st : State) : State :=
  mkState (jobs st) (loading st) v (relevanceFilter st) (apiError st)
    (previousStrongMatchJobIds st) (isInitialRelevantJobsLoad st)
    (notificationsEnabled st) (storedPreference st) (lastRefreshTime st) (nextPollTime st).

Definition setRelevanceFilter (v : string) (st : State) : State :=
  mkState (jobs st) (loading st) (analytics st) v (apiError st)
    (previousStrongMatchJobIds st) (isInitialRelevantJobsLoad st)
    (notificationsEnabled st) (storedPreference st) (lastRefreshTime st) (nextPollTime st).

Definition setApiError (v : bool) (st : State) : State :=
  mkState (jobs st) (loading st) (analytics st) (relevanceFilter st) v
    (previousStrongMatchJobIds st) (isInitialRelevantJobsLoad st)
    (notificationsEnabled st) (storedPreference st) (lastRefreshTime st) (nextPollTime st).

Definition setPreviousStrongMatchJobIds (v : gset string) (st : State) : State :=
  mkState (jobs st) (loading st) (analytics st) (relevanceFilter st) (apiError st)
    v (isInitialRelevantJobsLoad st)
    (notificationsEnabled st) (storedPreference st) (lastRefreshTime st) (nextPollTime st).

Definition setIsInitialRelevantJobsLoad (v : bool) (st : State) : State :=
  mkState (jobs st) (loading st) (analytics st) (relevanceFilter st) (apiError st)
    (previousStrongMatchJobIds st) v
    (notificationsEnabled st) (storedPreference st) (lastRefreshTime st) (nextPollTime st).

Definition setNotificationsEnabled (v : bool) (st : State) : State :=
  mkState (jobs st) (loading st) (analytics st) (relevanceFilter st) (apiError st)
    (previousStrongMatchJobIds st) (isInitialRelevantJobsLoad st)
    v (storedPreference st) (lastRefreshTime st) (nextPollTime st).

Definition setStoredPreference (v : string) (st : State) : State :=
  mkState (jobs st) (loading st) (analytics st) (relevanceFilter st) (apiError st)
    (previousStrongMatchJobIds st) (isInitialRelevantJobsLoad st)
    (notificationsEnabled st) (Some v) (lastRefreshTime st) (nextPollTime st).

Definition setLastRefreshTime (v : Z) (st : State) : State :=
  mkState (jobs st) (loading st) (analytics st) (relevanceFilter st) (apiError st)
    (previousStrongMatchJobIds st) (isInitialRelevantJobsLoad st)
    (notificationsEnabled st) (storedPreference st) v (nextPollTime st).

Definition setNextPollTime (v : Z) (st : State) : State :=
  mkState (jobs st) (loading st) (analytics st) (relevanceFilter st) (apiError st)
    (previousStrongMatchJobIds st) (isInitialRelevantJobsLoad st)
    (notificationsEnabled st) (storedPreference st) (lastRefreshTime st) v.

(** The state the component mounts with: the [useState]/[useRef] initial
    values, the enabled flag read back from the stored preference. *)
Definition initialState (stored : option string) (now : Z) : State :=
  {| jobs := [];
     loading := true;
     analytics := mkAnalytics 0 0 0 0;
     relevanceFilter := "strong";
     apiError := false;
     previousStrongMatchJobIds := ∅;
     isInitialRelevantJobsLoad := true;
     notificationsEnabled := bool_decide (stored = Some "true");
     storedPreference := stored;
     lastRefreshTime := now;
     nextPollTime := now + 90000 |}.

(** A callback's result: the state it leaves, the jobs for which a call of
    [showNotification] returned (in call order), and the platform effects. *)
Record Outcome : Type := mkOutcome {
  next : State;
  notified : list Job;
  effects : list Effect
}.

Definition silent (st : State) : Outcome := mkOutcome st [] [].

(** ** Notification gate: [showNotification] *)

Definition newline : string := String (Ascii.ascii_of_nat 10) "".

(** [s.length > limit ? s.substring(0, limit) + '...' : s] *)
Definition truncate (limit : nat) (s : string) : string :=
  if decide (limit < String.length s)
  then String.substring 0 limit s +:+ "..."
  else s.

(** The template literal of the alert body. *)
Definition notificationBody (truncatedTitle truncatedDescription : string) : string :=
  "Details: " +:+ truncatedTitle +:+ newline +:+ newline +:+ truncatedDescription.

(** [showNotification(jobTitle, jobDescription)].  The alert closes itself
    after ten seconds and on click; neither is part of the embedding. *)
Definition showNotification (env : Platform) (jobTitle jobDescription : string) : list Effect :=
  if decide (permission env = granted) then
    let truncatedTitle := truncate 100 jobTitle in
    let truncatedDescription := truncate 200 jobDescription in
    (if constructorThrows env
     then [Toast NotificationError]
     else [NativeNotification (notificationBody truncatedTitle truncatedDescription)])
    ++ [Toast (NewStrongMatchJob truncatedTitle)]
  else [Toast (NewStrongMatchJob jobTitle)].

(** The call [showNotification(job.title, job.description || '...')] of
    line 274, on a job as the server sent it; [None] when the call throws.
    With [job.title] missing, [jobTitle.length] at line 177 raises a
    [TypeError] before the [try] of line 180 is entered, provided the
    permission test of line 175 passed; otherwise the toast of line 229
    is shown with an [undefined] description. *)
Definition notifyJob (env : Platform) (job : Job) : option (list Effect) :=
  match title job with
  | Some jobTitle => Some (showNotification env jobTitle (descriptionOrDefault job))
  | None =>
      if decide (permission env = granted) then None
      else Some [Toast NewStrongMatchJobUntitled]
  end.

(** What a call of [notifyJob] shows; nothing when it throws. *)
Definition announcement (env : Platform) (job : Job) : list Effect :=
  match notifyJob env job with
  | Some shown => shown
  | None => []
  end.

(** The [forEach] of lines 272-275: the jobs whose call returned, what
    was shown for them, and whether a call threw and ended the loop. *)
Fixpoint notifyEach (env : Platform) (fresh : list Job) : list Job * list Effect * bool :=
  match fresh with
  | [] => ([], [], false)
  | job :: rest =>
      match notifyJob env job with
      | None => ([], [], true)
      | Some shown =>
          let '(announced, more, threw) := notifyEach env rest in
          (job :: announced, shown ++ more, threw)
      end
  end.

(** ** Whole-list fetch: [fetchJobsData] *)

Definition fallBackToSample (o : Outcome) : Outcome :=
  mkOutcome
    (setAnalytics (calculateAnalytics sampleJobs)
       (setApiError true (setJobs sampleJobs (next o))))
    (notified o)
    (effects o ++ [Toast ApiUnavailable]).

Definition fetchJobsData (now : Z) (resp : Response) (st : State) : Outcome :=
  let st0 := setLoading true st in
  let o :=
    match resp with
    | Ok data =>
        silent (setLastRefreshTime now
                  (setAnalytics (calculateAnalytics data)
                     (setApiError false (setJobs data st0))))
    | _ => fallBackToSample (silent st0)
    end in
  mkOutcome (setLoading false (next o)) (notified o) (effects o).

(** ** Diff engine and feed merge: [fetchJobsByRelevance] *)

(** [fetchedData.filter(job => job.id != null)] *)
Definition validJobs (fetchedData : list Job) : list Job :=
  filter (λ job, not_nullish (id job) = true) fetchedData.

(** [validJobs.filter(job => !previous.has(String(job.id)))] *)
Definition newStrongMatchJobs (previous : gset string) (fetchedData : list Job) : list Job :=
  filter (λ job, jobKey job ∉ previous) (validJobs fetchedData).

(** How a block of statements ended: normally, or by an exception that
    leaves the state and the effects reached so far. *)
Inductive Completion : Type :=
  | Returned (o : Outcome)
  | Thrown (o : Outcome).

(** Lines 257-290: the block guarded by [if (notificationsEnabled)].  The
    [notified] jobs are those whose [showNotification] call returned.  When
    a call throws, the summary toast and the update of the stored ids
    (lines 278-287) are not reached. *)
Definition processNotifications (env : Platform) (fetchedData : list Job) (st : State)
    : Completion :=
  if notificationsEnabled st then
    let currentJobIds := idSet (validJobs fetchedData) in
    if isInitialRelevantJobsLoad st then
      Returned (silent (setIsInitialRelevantJobsLoad false
                          (setPreviousStrongMatchJobIds currentJobIds st)))
    else
      let fresh := newStrongMatchJobs (previousStrongMatchJobIds st) fetchedData in
      match fresh with
      | [] => Returned (silent st)
      | _ :: _ =>
          let '(announced, shown, threw) := notifyEach env fresh in
          if threw then Thrown (mkOutcome st announced shown)
          else
            Returned
              (mkOutcome
                 (setPreviousStrongMatchJobIds
                    (previousStrongMatchJobIds st ∪ idSet fresh) st)
                 announced
                 (shown ++ [Toast (NewStrongMatchJobsFound (length fresh))]))
      end
  else Returned (silent st).

(** The outcome of that block when no [showNotification] call throws. *)
Definition completedNotifications (env : Platform) (fetchedData : list Job) (st : State)
    : Outcome :=
  if notificationsEnabled st then
    if isInitialRelevantJobsLoad st then
      silent (setIsInitialRelevantJobsLoad false
                (setPreviousStrongMatchJobIds (idSet (validJobs fetchedData)) st))
    else
      let fresh := newStrongMatchJobs (previousStrongMatchJobIds st) fetchedData in
      match fresh with
      | [] => silent st
      | _ :: _ =>
          mkOutcome
            (setPreviousStrongMatchJobIds
               (previousStrongMatchJobIds st ∪ idSet fresh) st)
            fresh
            (flat_map (announcement env) fresh
               ++ [Toast (NewStrongMatchJobsFound (length fresh))])
      end
  else silent st.

(** The updater passed to [setJobs] on a background poll (lines 303-308). *)
Definition mergeJobs (prevJobs fetchedData : list Job) : list Job :=
  let existingJobIds := idSet prevJobs in
  let newJobsToAdd := filter (λ job, jobKey job ∉ existingJobIds) fetchedData in
  match newJobsToAdd with
  | [] => prevJobs
  | _ :: _ => newJobsToAdd ++ prevJobs
  end.

(** Lines 296-316: what follows a fetch that produced [fetchedData]. *)
Definition commitFetched (now : Z) (relevance : string) (isPolling : bool)
    (fetchedData : list Job) (st : State) : State :=
  let st1 :=
    if negb isPolling || (isPolling && bool_decide (relevance = "strong")) then
      if bool_decide (relevance = "all") || negb isPolling
      then setJobs fetchedData st
      else setJobs (mergeJobs (jobs st) fetchedData) st
    else st in
  let st2 := setAnalytics (calculateAnalytics fetchedData) (setApiError false st1) in
  if negb isPolling then setLastRefreshTime now st2 else st2.

(** The [try] block.  For a [relevance] that is neither ['all'] nor
    ['strong'] nothing is fetched and [fetchedData] stays [undefined]:
    [setApiError(false)] runs, then [calculateAnalytics(undefined)] throws
    (the [setJobs(undefined)] queued before it on a foreground call is
    overwritten by the handler, which a foreground call always runs).  An
    exception out of the notification block skips lines 292-316. *)
Definition fetchJobsByRelevance_try (env : Platform) (now : Z) (relevance : string)
    (isPolling : bool) (resp : Response) (st : State) : Completion :=
  if bool_decide (relevance = "all") then
    match resp with
    | Ok fetchedData =>
        Returned (silent (commitFetched now relevance isPolling fetchedData st))
    | _ => Thrown (silent st)
    end
  else if bool_decide (relevance = "strong") then
    match resp with
    | Ok fetchedData =>
        match processNotifications env fetchedData st with
        | Returned o =>
            let st1 := setPreviousStrongMatchJobIds (idSet fetchedData) (next o) in
            Returned (mkOutcome (commitFetched now relevance isPolling fetchedData st1)
                        (notified o) (effects o))
        | Thrown o => Thrown o
        end
    | _ => Thrown (silent st)
    end
  else Thrown (silent (setApiError false st)).

Definition fetchJobsByRelevance (env : Platform) (now : Z) (relevance : string)
    (isPolling : bool) (resp : Response) (st : State) : Outcome :=
  let st0 := if negb isPolling then setLoading true st else st in
  let o :=
    match fetchJobsByRelevance_try env now relevance isPolling resp st0 with
    | Returned o => o
    | Thrown o => if negb isPolling then fallBackToSample o else o
    end in
  if negb isPolling
  then mkOutcome (setLoading false (next o)) (notified o) (effects o)
  else o.

(** ** Toggle controller: [toggleNotifications] *)

(** What the awaited [Notification.requestPermission()] came to. *)
Inductive RequestOutcome : Type :=
  | Resolved (p : Permission)
  | Rejected.

(** The reset both branches of the toggle perform on the two refs. *)
Definition rearmBaseline (st : State) : State :=
  setIsInitialRelevantJobsLoad true (setPreviousStrongMatchJobIds ∅ st).

Definition enable (st : State) : Outcome :=
  mkOutcome
    (rearmBaseline (setStoredPreference "true" (setNotificationsEnabled true st)))
    [] [Toast NotificationsEnabled].

Definition disable (st : State) : Outcome :=
  mkOutcome
    (rearmBaseline (setStoredPreference "false" (setNotificationsEnabled false st)))
    [] [Toast NotificationsDisabled].

Definition toggleNotifications (env : Platform) (req : RequestOutcome) (st : State) : Outcome :=
  if negb (notificationsEnabled st) then
    if decide (permission env = granted) then enable st
    else
      match req with
      | Resolved granted => enable st
      | Resolved _ => mkOutcome st [] [Toast NotificationPermissionDenied]
      | Rejected => silent st
      end
  else disable st.

(** ** Fetch cycles *)

(** [handleManualRefresh] *)
Definition handleManualRefresh (env : Platform) (now : Z) (resp : Response) (st : State) : Outcome :=
  if bool_decide (relevanceFilter st = "strong")
  then fetchJobsByRelevance env now "strong" false resp st
  else fetchJobsData now resp st.

(** The callback [startPolling] hands to [setInterval] (lines 405-412). *)
Definition pollTick (env : Platform) (now : Z) (resp : Response) (st : State) : Outcome :=
  if bool_decide (relevanceFilter st = "strong") && notificationsEnabled st then
    let o := fetchJobsByRelevance env now "strong" true resp st in
    mkOutcome (setNextPollTime (now + 90000) (next o)) (notified o) (effects o)
  else silent st.

(** Choosing an entry of the relevance select, and the effect keyed on
    [relevanceFilter] that then fetches (lines 453-459). *)
Definition selectRelevance (env : Platform) (now : Z) (v : string) (resp : Response) (st : State) : Outcome :=
  let st1 := setRelevanceFilter v st in
  if bool_decide (v = "strong") then fetchJobsByRelevance env now "strong" false resp st1
  else if bool_decide (v = "all") then fetchJobsData now resp st1
  else silent st1.

(** One fetch cycle of a session in which the toggle is not touched. *)
Inductive Cycle : Type :=
  | ManualRefresh (now : Z) (resp : Response)
  | PollTick (now : Z) (resp : Response)
  | SelectRelevance (now : Z) (v : string) (resp : Response).

Definition cycle (env : Platform) (c : Cycle) (st : State) : Outcome :=
  match c with
  | ManualRefresh now resp => handleManualRefresh env now resp st
  | PollTick now resp => pollTick env now resp st
  | SelectRelevance now v resp => selectRelevance env now v resp st
  end.

(** Running cycles one after the other, collecting calls and effects. *)
Fixpoint runCycles (env : Platform) (cs : list Cycle) (st : State) : Outcome :=
  match cs with
  | [] => silent st
  | c :: cs' =>
      let o := cycle env c st in
      let o' := runCycles env cs' (next o) in
      mkOutcome (next o') (notified o ++ notified o') (effects o ++ effects o')
  end.

(** A native alert or an in-app toast announcing new jobs. *)
Definition isNewJobAlert (e : Effect) : bool :=
  match e with
  | NativeNotification _ => true
  | Toast (NewStrongMatchJob _) => true
  | Toast NewStrongMatchJobUntitled => true
  | Toast (NewStrongMatchJobsFound _) => true
  | Toast _ => false
  end.

Definition isFailure (resp : Response) : bool :=
  match resp with
  | Ok _ => false
  | _ => true
  end.

(** ** Poll scheduler: [startPolling], [stopPolling] and the two effects
    that own the interval timer (lines 400-478)

    The browser's timer table and React's bookkeeping for the hooks are
    explicit.  A memoised callback reads the [pollingInterval] of the render
    that last rebuilt it ([useCallback] with its dependency list); an effect
    runs again, after its pending cleanup, when one of its dependencies
    changed identity. *)

Module Scheduler.

Definition TimerId : Type := nat.

(** What the callback handed to [setInterval] closes over. *)
Record Closure : Type := mkClosure {
  seenFilter : string;
  seenEnabled : bool
}.

Inductive Lifecycle : Type := Fresh | Mounted | Unmounted.

Record World : Type := mkWorld {
  lifecycle : Lifecycle;
  relevanceFilter : string;              (* as of the last render *)
  notificationsEnabled : bool;           (* as of the last render *)
  pollingInterval : option TimerId;      (* React state, latest value set *)
  startPollingSees : option TimerId;     (* pollingInterval inside the memoised startPolling *)
  stopPollingSees : option TimerId;      (* pollingInterval inside the memoised stopPolling *)
  effectCleanup : option TimerId;        (* interval inside the polling effect's pending cleanup *)
  teardownSees : option TimerId;         (* pollingInterval inside the stopPolling the teardown cleanup calls *)
  timers : gmap TimerId Closure;         (* intervals the browser still fires *)
  cleared : gset TimerId;                (* every id clearInterval was called with *)
  nextTimer : TimerId                    (* the id the next setInterval returns *)
}.

(** Before the first render.  Timer ids are positive, as in the browser, so
    that [if (pollingInterval)] tests for a timer being recorded. *)
Definition initial : World :=
  mkWorld Fresh "strong" false None None None None None ∅ ∅ 1.

(** *** The browser's timers *)

Definition clearInterval (i : TimerId) (w : World) : World :=
  mkWorld (lifecycle w) (relevanceFilter w) (notificationsEnabled w) (pollingInterval w)
    (startPollingSees w) (stopPollingSees w) (effectCleanup w) (teardownSees w)
    (delete i (timers w)) ({[i]} ∪ cleared w) (nextTimer w).

Definition setInterval (c : Closure) (w : World) : TimerId * World :=
  (nextTimer w,
   mkWorld (lifecycle w) (relevanceFilter w) (notificationsEnabled w) (pollingInterval w)
     (startPollingSees w) (stopPollingSees w) (effectCleanup w) (teardownSees w)
     (<[nextTimer w := c]> (timers w)) (cleared w) (S (nextTimer w))).

(** Does the browser, firing timer [i] now, run the fetch-diff-notify-merge
    pipeline?  A cleared timer has no callback left to run; a live one runs
    the pipeline under the guard of its callback (line 406). *)
Definition tickRunsPipeline (i : TimerId) (w : World) : bool :=
  match timers w !! i with
  | Some c => bool_decide (seenFilter c = "strong") && seenEnabled c
  | None => false
  end.

(** *** React state and hook bookkeeping *)

Definition setPollingInterval (v : option TimerId) (w : World) : World :=
  mkWorld (lifecycle w) (relevanceFilter w) (notificationsEnabled w) v
    (startPollingSees w) (stopPollingSees w) (effectCleanup w) (teardownSees w)
    (timers w) (cleared w) (nextTimer w).

Definition setEffectCleanup (v : option TimerId) (w : World) : World :=
  mkWorld (lifecycle w) (relevanceFilter w) (notificationsEnabled w) (pollingInterval w)
    (startPollingSees w) (stopPollingSees w) v (teardownSees w)
    (timers w) (cleared w) (nextTimer w).

Definition setTeardownSees (v : option TimerId) (w : World) : World :=
  mkWorld (lifecycle w) (relevanceFilter w) (notificationsEnabled w) (pollingInterval w)
    (startPollingSees w) (stopPollingSees w) (effectCleanup w) v
    (timers w) (cleared w) (nextTimer w).

Definition setLifecycle (v : Lifecycle) (w : World) : World :=
  mkWorld v (relevanceFilter w) (notificationsEnabled w) (pollingInterval w)
    (startPollingSees w) (stopPollingSees w) (effectCleanup w) (teardownSees w)
    (timers w) (cleared w) (nextTimer w).

(** *** The callbacks *)

(** [startPolling]: its dependency list holds [relevanceFilter] and
    [notificationsEnabled], so the callback it installs closes over the
    values of the current render; [pollingInterval] is not in the list. *)
Definition startPolling (w : World) : TimerId * World :=
  let w1 := match startPollingSees w with
            | Some p => clearInterval p w
            | None => w
            end in
  let '(interval, w2) :=
    setInterval (mkClosure (relevanceFilter w) (notificationsEnabled w)) w1 in
  (interval, setPollingInterval (Some interval) w2).

(** [stopPolling], as memoised with [pollingInterval] equal to [sees]. *)
Definition stopPolling (sees : option TimerId) (w : World) : World :=
  match sees with
  | Some p => setPollingInterval None (clearInterval p w)
  | None => w
  end.

(** The effect of lines 462-471 and the cleanup it returns. *)
Definition pollingEffect (w : World) : World :=
  if bool_decide (relevanceFilter w = "strong") && notificationsEnabled w then
    let '(interval, w') := startPolling w in
    setEffectCleanup (Some interval) w'
  else setEffectCleanup None (stopPolling (stopPollingSees w) w).

Definition pollingEffectCleanup (w : World) : World :=
  match effectCleanup w with
  | Some interval => setEffectCleanup None (clearInterval interval w)
  | None => w
  end.

(** The cleanup of the teardown effect of lines 474-478. *)
Definition teardownCleanup (w : World) : World :=
  stopPolling (teardownSees w) w.

(** *** Renders and commits *)

(** A render with the given [relevanceFilter] and [notificationsEnabled];
    [fetchRebuilt] tells whether [fetchJobsByRelevance] changed identity for
    a reason of its own.  The result carries which of [startPolling] and
    [stopPolling] were rebuilt. *)
Definition render (filter : string) (enabled : bool) (fetchRebuilt : bool) (w : World)
    : World * bool * bool :=
  let first := match lifecycle w with Fresh => true | _ => false end in
  let startRebuilt :=
    first || negb (bool_decide (filter = relevanceFilter w))
          || negb (bool_decide (enabled = notificationsEnabled w))
          || fetchRebuilt in
  let stopRebuilt :=
    first || negb (bool_decide (pollingInterval w = stopPollingSees w)) in
  (mkWorld Mounted filter enabled (pollingInterval w)
     (if startRebuilt then pollingInterval w else startPollingSees w)
     (pollingInterval w) (effectCleanup w) (teardownSees w)
     (timers w) (cleared w) (nextTimer w),
   startRebuilt, stopRebuilt).

(** The cleanups of the effects whose dependencies changed, in the order
    the effects are declared. *)
Definition runCleanups (startRebuilt stopRebuilt : bool) (w : World) : World :=
  let w1 := if startRebuilt || stopRebuilt then pollingEffectCleanup w else w in
  if stopRebuilt then teardownCleanup w1 else w1.

(** Then their bodies. *)
Definition runEffects (startRebuilt stopRebuilt : bool) (w : World) : World :=
  let w1 := if startRebuilt || stopRebuilt then pollingEffect w else w in
  if stopRebuilt then setTeardownSees (stopPollingSees w1) w1 else w1.

Definition commit (filter : string) (enabled : bool) (fetchRebuilt : bool) (w : World) : World :=
  let '(w1, startRebuilt, stopRebuilt) := render filter enabled fetchRebuilt w in
  runEffects startRebuilt stopRebuilt (runCleanups startRebuilt stopRebuilt w1).

(** The world between the cleanups and the effect bodies of a commit. *)
Definition midCommit (filter : string) (enabled : bool) (fetchRebuilt : bool) (w : World) : World :=
  let '(w1, startRebuilt, stopRebuilt) := render filter enabled fetchRebuilt w in
  runCleanups startRebuilt stopRebuilt w1.

Definition unmount (w : World) : World :=
  setLifecycle Unmounted (teardownCleanup (pollingEffectCleanup w)).

Inductive Action : Type :=
  | Commit (filter : string) (enabled : bool) (fetchRebuilt : bool)
  | Unmount.

Definition act (a : Action) (w : World) : World :=
  match lifecycle w, a with
  | Unmounted, _ => w
  | Fresh, Unmount => w
  | _, Commit filter enabled fetchRebuilt => commit filter enabled fetchRebuilt w
  | Mounted, Unmount => unmount w
  end.

(** The world after a history of renders, oldest first. *)
Definition exec (history : list Action) : World :=
  foldl (λ w a, act a w) initial history.

(** *** Invariants of the timer table *)

(** Every timer id a hook still remembers was handed out by [setInterval]. *)
Definition known (w : World) (o : option TimerId) : Prop :=
  ∀ i, o = Some i → i < nextTimer w.

(** What holds at every point of every commit: a live timer is the one the
    polling effect's pending cleanup will clear, and it was installed while
    the feed was in strong-match mode with notifications enabled. *)
Record Inv (w : World) : Prop := mkInv {
  inv_owned : ∀ i c, timers w !! i = Some c →
                effectCleanup w = Some i ∧ c = mkClosure "strong" true;
  inv_cleared : ∀ i, i ∈ cleared w → timers w !! i = None;
  inv_cleared_old : ∀ i, i ∈ cleared w → i < nextTimer w;
  inv_live_old : ∀ i, is_Some (timers w !! i) → i < nextTimer w;
  inv_pollingInterval : known w (pollingInterval w);
  inv_startPollingSees : known w (startPollingSees w);
  inv_stopPollingSees : known w (stopPollingSees w);
  inv_effectCleanup : known w (effectCleanup w);
  inv_teardownSees : known w (teardownSees w)
}.

(** What holds between commits: timers only live in a mounted page that
    shows strong matches with notifications enabled. *)
Definition Settled (w : World) : Prop :=
  timers w ≠ ∅ →
  relevanceFilter w = "strong" ∧ notificationsEnabled w = true ∧ lifecycle w = Mounted.

End Scheduler.

(** ** Job table: search box, selection, bulk action, status dialog
    (lines 514-556 and 1156-1182)

    The state these handlers use beside the feed list.  [selectedJobs] holds
    raw [job.id] values, compared as the [Set] compares them (a number and a
    string are never the same member). *)

#[global] Instance JsValue_countable : Countable JsValue.
Proof.
  refine (inj_countable'
            (λ v, match v with
                  | JsUndefined => inl (inl ())
                  | JsNull => inl (inr ())
                  | JsNumber z => inr (inl z)
                  | JsString s => inr (inr s)
                  end)
            (λ x, match x with
                  | inl (inl _) => JsUndefined
                  | inl (inr _) => JsNull
                  | inr (inl z) => JsNumber z
                  | inr (inr s) => JsString s
                  end) _).
  by intros [].
Defined.

Record Table : Type := mkTable {
  page : State;
  selectedJobs : gset JsValue;
  bulkAction : string;
  searchTerm : string;
  editStatusJob : option Job;
  selectedStatus : string
}.

(** [{ ...job, status: v }] *)
Definition withStatus (v : string) (job : Job) : Job :=
  mkJob (id job) (title job) (description job) v.

(** Case folding of a letter of ASCII text. *)
Definition lowerAscii (c : Ascii.ascii) : Ascii.ascii :=
  let n := Ascii.nat_of_ascii c in
  if decide (65 ≤ n ∧ n ≤ 90) then Ascii.ascii_of_nat (n + 32) else c.

(** What [String.prototype.toLowerCase] does to ASCII text.  The builtin
    itself, which folds every cased letter, is a parameter [toLowerCase] of
    the definitions that call it; this function stands in for it in worked
    inputs. *)
Fixpoint toLowerCaseAscii (s : string) : string :=
  match s with
  | "" => ""
  | String c s' => String (lowerAscii c) (toLowerCaseAscii s')
  end.

(** [hay.includes(needle)] *)
Definition includes (needle hay : string) : bool :=
  match String.index 0 needle hay with
  | Some _ => true
  | None => false
  end.

(** [job.title?.toLowerCase().includes(searchTerm.toLowerCase())]: with the
    title missing the optional chain yields [undefined], which the filter
    takes for false. *)
Definition matchesSearch (toLowerCase : string → string) (searchTerm : string) (job : Job)
    : bool :=
  match title job with
  | Some jobTitle => includes (toLowerCase searchTerm) (toLowerCase jobTitle)
  | None => false
  end.

(** [jobs.filter(job => matchesSearch)] (lines 551-554) *)
Definition filteredJobs (toLowerCase : string → string) (t : Table) : list Job :=
  filter (λ job, matchesSearch toLowerCase (searchTerm t) job = true) (jobs (page t)).

(** [handleBulkAction(action)] *)
Definition handleBulkAction (action : string) (t : Table) : Table :=
  if decide (size (selectedJobs t) = 0) then t
  else
    let updatedJobs :=
      (λ job, if decide (id job ∈ selectedJobs t) then withStatus action job else job)
        <$> jobs (page t) in
    mkTable
      (setAnalytics (calculateAnalytics updatedJobs) (setJobs updatedJobs (page t)))
      ∅ "" (searchTerm t) (editStatusJob t) (selectedStatus t).

(** [handleSelectAll(checked)] *)
Definition handleSelectAll (toLowerCase : string → string) (checked : bool) (t : Table)
    : Table :=
  mkTable (page t)
    (if checked then list_to_set (id <$> filteredJobs toLowerCase t) else ∅)
    (bulkAction t) (searchTerm t) (editStatusJob t) (selectedStatus t).

(** The header checkbox (line 798):
    [selectedJobs.size === sortedJobs.length && sortedJobs.length > 0],
    [sortedJobs] being [filteredJobs] (line 556). *)
Definition headerChecked (toLowerCase : string → string) (t : Table) : bool :=
  bool_decide (size (selectedJobs t) = length (filteredJobs toLowerCase t))
  && bool_decide (0 < length (filteredJobs toLowerCase t)).

(** [handleSelectJob(jobId, checked)] *)
Definition handleSelectJob (jobId : JsValue) (checked : bool) (t : Table) : Table :=
  mkTable (page t)
    (if checked then {[jobId]} ∪ selectedJobs t else selectedJobs t ∖ {[jobId]})
    (bulkAction t) (searchTerm t) (editStatusJob t) (selectedStatus t).

(** The Edit button of a row (line 919): opens the status dialog on [job]. *)
Definition openStatusDialog (job : Job) (t : Table) : Table :=
  mkTable (page t) (selectedJobs t) (bulkAction t) (searchTerm t)
    (Some job) (status job).

(** Choosing an entry of the dialog's select. *)
Definition setSelectedStatus (v : string) (t : Table) : Table :=
  mkTable (page t) (selectedJobs t) (bulkAction t) (searchTerm t)
    (editStatusJob t) v.

(** The Save button of the status dialog (lines 1175-1179); the dialog, and
    with it the button, only exists while [editStatusJob] is set.  The
    result carries the status named by the "Status Updated" toast. *)
Definition saveStatus (t : Table) : option (Table * string) :=
  match editStatusJob t with
  | Some edited =>
      let updated :=
        (λ j, if decide (id j = id edited) then withStatus (selectedStatus t) j else j)
          <$> jobs (page t) in
      Some (mkTable (setJobs updated (page t)) (selectedJobs t) (bulkAction t)
              (searchTerm t) None (selectedStatus t),
            selectedStatus t)
  | None => None
  end.

(** ** Description preview of a row (lines 823-827 and 1123-1125) *)

(** [s.split(" ")] *)
Fixpoint splitSpaces (s : string) : list string :=
  match s with
  | "" => [""]
  | String c s' =>
      if decide (c = Ascii.ascii_of_nat 32) then "" :: splitSpaces s'
      else match splitSpaces s' with
           | w :: ws => String c w :: ws
           | [] => [String c ""]
           end
  end.

(** [words.join(" ")] *)
Fixpoint joinSpaces (ws : list string) : string :=
  match ws with
  | [] => ""
  | [w] => w
  | w :: ws' => w +:+ " " +:+ joinSpaces ws'
  end.

(** [description ? description.split(" ").slice(0, n).join(" ")
       + (description.split(" ").length > n ? "..." : "") : ""],
    with [n] 12 in the table and 15 on the cards. *)
Definition descriptionPreview (n : nat) (job : Job) : string :=
  match description job with
  | None | Some "" => ""
  | Some d =>
      joinSpaces (take n (splitSpaces d))
        +:+ (if decide (n < length (splitSpaces d)) then "..." else "")
  end.

(** The statuses [calculateAnalytics] counts. *)
Definition knownStatuses : list string :=
  ["active"; "available"; "completed"; "submitted"; "in-progress"].

(** A string without a space character. *)
Fixpoint spaceless (s : string) : bool :=
  match s with
  | "" => true
  | String c s' => if decide (c = Ascii.ascii_of_nat 32) then false else spaceless s'
  end.

(** ** Sessions: fetch cycles and toggles in any order *)

Inductive UserEvent : Type :=
  | Cycled (c : Cycle)
  | Toggled (browser : Platform) (req : RequestOutcome).

Definition handle (env : Platform) (ev : UserEvent) (st : State) : Outcome :=
  match ev with
  | Cycled c => cycle env c st
  | Toggled browser req => toggleNotifications browser req st
  end.

(** The state a session ends in. *)
Definition session (env : Platform) (evs : list UserEvent) (st : State) : State :=
  foldl (λ s ev, next (handle env ev s)) st evs.

(** Effects by channel. *)
Definition isNativeAlert (e : Effect) : bool :=
  match e with
  | NativeNotification _ => true
  | Toast _ => false
  end.

Definition isJobToast (e : Effect) : bool :=
  match e with
  | Toast (NewStrongMatchJob _) => true
  | Toast NewStrongMatchJobUntitled => true
  | _ => false
  end.

(** The enabled flag is the one the stored preference gives back. *)
Definition preferenceInSync (st : State) : Prop :=
  notificationsEnabled st = bool_decide (storedPreference st = Some "true").

(** Every live timer is the one [pollingInterval] records, and the
    memoised [stopPolling] was built before that timer existed. *)
Definition timerTracked (w : Scheduler.World) : Prop :=
  ∀ i c, Scheduler.timers w !! i = Some c →
    Scheduler.pollingInterval w = Some i ∧ Scheduler.stopPollingSees w ≠ Some i.

(** ** Jobs the notification loop can go through *)

Definition titled (job : Job) : Prop := is_Some (title job).

(** No call of [showNotification] on a job of [snapshot] can throw: the
    permission is not granted, or every job has a title. *)
Definition safeToAnnounce (env : Platform) (snapshot : list Job) : Prop :=
  permission env = granted → Forall titled snapshot.

(** The notification block of a strong-match fetch started in [st] runs to
    its end: it is skipped, or it takes the baseline branch, or no call on
    a job it has to announce can throw. *)
Definition runsThrough (env : Platform) (st : State) (snapshot : list Job) : Prop :=
  notificationsEnabled st = false
  ∨ isInitialRelevantJobsLoad st = true
  ∨ safeToAnnounce env (newStrongMatchJobs (previousStrongMatchJobIds st) snapshot).

(** ** Worked inputs and specification-level predicates *)

(** A listing with the string id [k]. *)
Definition item (k : string) : Job :=
  mkJob (JsString k) (Some ("Job " +:+ k)) None "available".

(** A listing the server sent without a title. *)
Definition untitled (k : string) : Job := mkJob (JsString k) None None "available".


(** A browser with the permission granted and a working constructor. *)
Definition chrome : Platform := mkPlatform granted false.

(** Notifications were enabled in an earlier session; the page has just mounted. *)
Definition scenarioStart : State := initialState (Some "true") 0.

Definition scenarioA : Outcome :=
  fetchJobsByRelevance chrome 1 "strong" false (Ok [item "1"; item "2"]) scenarioStart.

Definition scenarioB : Outcome :=
  fetchJobsByRelevance chrome 2 "strong" true
    (Ok [item "1"; item "2"; item "3"]) (next scenarioA).

(** A first visit: nothing stored, notifications are off. *)
Definition firstVisit : State := initialState None 0.

Definition snapshotOne : list Job :=
  [ mkJob JsNull (Some "Untitled") None "available" ].

Definition snapshotTwo : list Job :=
  [ mkJob (JsString "null") (Some "Imported listing") None "available";
    mkJob JsUndefined (Some "Draft") None "available" ].

Definition afterSnapshotOne : State :=
  next (fetchJobsByRelevance chrome 1 "strong" false (Ok snapshotOne) scenarioStart).

Definition toggledOffAndOn : State :=
  next (toggleNotifications chrome Rejected
          (next (toggleNotifications chrome Rejected (next scenarioA)))).


Definition longTitle : string :=
  "Senior full-stack engineer wanted for a long-running marketplace rebuild with React, TypeScript, Node and PostgreSQL".

Definition verboseJob : Job :=
  mkJob (JsNumber 41) (Some longTitle) (Some "Short brief.") "available".

(** An outcome that announced no job, natively or in the page. *)
Definition quiet (o : Outcome) : Prop :=
  notified o = [] ∧ Forall (λ e, isNewJobAlert e = false) (effects o).

Definition busyDay : list Cycle :=
  [ ManualRefresh 1 (Ok [item "1"; item "2"]);
    PollTick 2 (Ok [item "1"; item "2"; item "3"]);
    SelectRelevance 3 "all" (Ok [item "4"; item "5"; item "6"]);
    SelectRelevance 4 "strong" (HttpError 500);
    ManualRefresh 5 (Ok [item "7"; item "8"]) ].

(** The table over the feed list scenario B leaves, nothing selected, the
    search box empty, no dialog open. *)
Definition deskTable : Table := mkTable (next scenarioB) ∅ "" "" None "".

(** The status dialog, open on job "1", with "completed" chosen. *)
Definition dialogTable : Table :=
  setSelectedStatus "completed" (openStatusDialog (item "1") deskTable).

(** * Properties *)

(** ** Reading the state through the setters and the fetch pipeline *)

Lemma strong_is_not_all : bool_decide ("strong" = "all") = false.
Proof. reflexivity. Qed.

Lemma strong_is_strong : bool_decide ("strong" = "strong") = true.
Proof. reflexivity. Qed.

Lemma elem_of_idSet (data : list Job) (k : string) :
  k ∈ idSet data ↔ ∃ job, job ∈ data ∧ jobKey job = k.
Proof.
  unfold idSet. rewrite elem_of_list_to_set, list_elem_of_fmap.
  split; intros (job & H1 & H2); exists job; auto.
Qed.

Lemma elem_of_validJobs (data : list Job) (job : Job) :
  job ∈ validJobs data ↔ job ∈ data ∧ not_nullish (id job) = true.
Proof. unfold validJobs. rewrite list_elem_of_filter. tauto. Qed.

Lemma idSet_filter_difference (previous : gset string) (data : list Job) :
  idSet (filter (λ job, jobKey job ∉ previous) data) = idSet data ∖ previous.
Proof.
  apply set_eq. intros k.
  rewrite elem_of_difference, !elem_of_idSet.
  split.
  - intros (job & Hin & <-). apply list_elem_of_filter in Hin as [Hnew Hin]. eauto.
  - intros [(job & Hin & <-) Hnew]. exists job. split; [|done].
    apply list_elem_of_filter. auto.
Qed.

(** A call of [showNotification] on a titled job, or without the
    permission, returns. *)
Lemma notifyJob_safe (env : Platform) (job : Job) :
  (permission env = granted → titled job) →
  notifyJob env job = Some (announcement env job).
Proof.
  intros Hsafe. unfold announcement, notifyJob.
  destruct (title job) as [jobTitle|] eqn:Ht; [done|].
  destruct (decide (permission env = granted)) as [Hg|Hg]; [|done].
  destruct (Hsafe Hg) as [jobTitle HjobTitle]. congruence.
Qed.

Lemma notifyEach_safe (env : Platform) (fresh : list Job) :
  safeToAnnounce env fresh →
  notifyEach env fresh = (fresh, flat_map (announcement env) fresh, false).
Proof.
  unfold safeToAnnounce.
  induction fresh as [|job rest IH]; intros Hsafe; [done|].
  cbn [notifyEach flat_map].
  rewrite notifyJob_safe.
  - rewrite IH; [done|]. intros Hg. by eapply Forall_inv_tail, Hsafe.
  - intros Hg. by eapply Forall_inv, Hsafe.
Qed.

Lemma safeToAnnounce_fresh (env : Platform) (previous : gset string) (snapshot : list Job) :
  safeToAnnounce env snapshot →
  safeToAnnounce env (newStrongMatchJobs previous snapshot).
Proof.
  unfold safeToAnnounce. intros Hsafe Hg.
  apply Forall_forall. intros job Hin.
  apply list_elem_of_filter in Hin as [_ Hin].
  apply list_elem_of_filter in Hin as [_ Hin].
  revert job Hin. apply Forall_forall. auto.
Qed.

(** When no call can throw, the notification block runs to its end. *)
Lemma processNotifications_completes (env : Platform) (fetchedData : list Job) (st : State) :
  runsThrough env st fetchedData →
  processNotifications env fetchedData st
  = Returned (completedNotifications env fetchedData st).
Proof.
  unfold processNotifications, completedNotifications.
  intros [He|[Hi|Hsafe]].
  - by rewrite He.
  - rewrite Hi. by destruct (notificationsEnabled st).
  - destruct (notificationsEnabled st); [|done].
    destruct (isInitialRelevantJobsLoad st); [done|].
    cbv zeta.
    pose proof (notifyEach_safe env _ Hsafe) as Hrun.
    destruct (newStrongMatchJobs (previousStrongMatchJobIds st) fetchedData) as [|job rest];
      [done|].
    by rewrite Hrun.
Qed.

Lemma runsThrough_setLoading (env : Platform) (b v : bool) (st : State)
    (snapshot : list Job) :
  runsThrough env st snapshot →
  runsThrough env (if b then setLoading v st else st) snapshot.
Proof. by destruct b. Qed.

Lemma safe_runsThrough (env : Platform) (st : State) (snapshot : list Job) :
  safeToAnnounce env snapshot → runsThrough env st snapshot.
Proof. intros Hsafe. right. right. by apply safeToAnnounce_fresh. Qed.

(** The strong-match pipeline on a successful fetch, stage by stage. *)
Lemma fetch_strong_ok (env : Platform) (now : Z) (isPolling : bool)
    (fetchedData : list Job) (st : State) :
  runsThrough env st fetchedData →
  let st0 := if negb isPolling then setLoading true st else st in
  let o := completedNotifications env fetchedData st0 in
  let st2 := commitFetched now "strong" isPolling fetchedData
               (setPreviousStrongMatchJobIds (idSet fetchedData) (next o)) in
  fetchJobsByRelevance env now "strong" isPolling (Ok fetchedData) st
  = mkOutcome (if negb isPolling then setLoading false st2 else st2)
      (notified o) (effects o).
Proof.
  intros Hruns. unfold fetchJobsByRelevance, fetchJobsByRelevance_try.
  rewrite strong_is_not_all, strong_is_strong.
  rewrite processNotifications_completes by by apply runsThrough_setLoading.
  destruct isPolling; reflexivity.
Qed.

(** The same fetch when a call of [showNotification] throws: a poll stops
    there, a foreground call falls back to the sample data. *)
Lemma fetch_strong_thrown (env : Platform) (now : Z) (isPolling : bool)
    (fetchedData : list Job) (st : State) (o : Outcome) :
  processNotifications env fetchedData
    (if negb isPolling then setLoading true st else st) = Thrown o →
  fetchJobsByRelevance env now "strong" isPolling (Ok fetchedData) st
  = if negb isPolling
    then mkOutcome (setLoading false (next (fallBackToSample o)))
           (notified o) (effects o ++ [Toast ApiUnavailable])
    else o.
Proof.
  intros Hthrown. unfold fetchJobsByRelevance, fetchJobsByRelevance_try.
  rewrite strong_is_not_all, strong_is_strong, Hthrown.
  destruct isPolling; reflexivity.
Qed.

Lemma commitFetched_refs (now : Z) (relevance : string) (isPolling : bool)
    (fetchedData : list Job) (st : State) :
  let st' := commitFetched now relevance isPolling fetchedData st in
  previousStrongMatchJobIds st' = previousStrongMatchJobIds st
  ∧ isInitialRelevantJobsLoad st' = isInitialRelevantJobsLoad st
  ∧ notificationsEnabled st' = notificationsEnabled st
  ∧ relevanceFilter st' = relevanceFilter st.
Proof.
  unfold commitFetched.
  destruct isPolling, (bool_decide (relevance = "strong")),
    (bool_decide (relevance = "all")); cbn; auto.
Qed.

(** What the completed notification block does to the baseline flag, and
    which jobs it announces. *)
Lemma completedNotifications_flag (env : Platform) (fetchedData : list Job) (st : State) :
  isInitialRelevantJobsLoad (next (completedNotifications env fetchedData st))
  = isInitialRelevantJobsLoad st && negb (notificationsEnabled st).
Proof.
  unfold completedNotifications.
  destruct (notificationsEnabled st) eqn:He, (isInitialRelevantJobsLoad st) eqn:Hi;
    cbn; rewrite ?Hi; auto.
  destruct (newStrongMatchJobs _ _); cbn; auto.
Qed.

Lemma completedNotifications_enabled (env : Platform) (fetchedData : list Job) (st : State) :
  notificationsEnabled (next (completedNotifications env fetchedData st))
  = notificationsEnabled st.
Proof.
  unfold completedNotifications.
  destruct (notificationsEnabled st) eqn:He, (isInitialRelevantJobsLoad st) eqn:Hi;
    cbn; rewrite ?He; auto.
  destruct (newStrongMatchJobs _ _); cbn; auto.
Qed.

Lemma completedNotifications_baseline (env : Platform) (fetchedData : list Job) (st : State) :
  isInitialRelevantJobsLoad st = true →
  notified (completedNotifications env fetchedData st) = []
  ∧ effects (completedNotifications env fetchedData st) = [].
Proof.
  intros Hi. unfold completedNotifications. rewrite Hi.
  destruct (notificationsEnabled st); cbn; auto.
Qed.

Lemma completedNotifications_disabled (env : Platform) (fetchedData : list Job) (st : State) :
  notificationsEnabled st = false →
  completedNotifications env fetchedData st = silent st.
Proof. intros He. unfold completedNotifications. by rewrite He. Qed.

Lemma completedNotifications_diff (env : Platform) (fetchedData : list Job) (st : State) :
  notificationsEnabled st = true →
  isInitialRelevantJobsLoad st = false →
  notified (completedNotifications env fetchedData st)
  = newStrongMatchJobs (previousStrongMatchJobIds st) fetchedData.
Proof.
  intros He Hi. unfold completedNotifications. rewrite He, Hi.
  destruct (newStrongMatchJobs _ _); reflexivity.
Qed.

Lemma setLoading_if_refs (b : bool) (v : bool) (st : State) :
  let st' := if b then setLoading v st else st in
  previousStrongMatchJobIds st' = previousStrongMatchJobIds st
  ∧ isInitialRelevantJobsLoad st' = isInitialRelevantJobsLoad st
  ∧ notificationsEnabled st' = notificationsEnabled st
  ∧ jobs st' = jobs st.
Proof. destruct b; cbn; auto. Qed.

(** After a successful strong-match fetch whose notification block ran to
    its end: the stored id set, the baseline flag and the enabled flag. *)
Lemma fetch_strong_ok_refs (env : Platform) (now : Z) (isPolling : bool)
    (fetchedData : list Job) (st : State) :
  runsThrough env st fetchedData →
  let st' := next (fetchJobsByRelevance env now "strong" isPolling (Ok fetchedData) st) in
  previousStrongMatchJobIds st' = idSet fetchedData
  ∧ isInitialRelevantJobsLoad st'
    = isInitialRelevantJobsLoad st && negb (notificationsEnabled st)
  ∧ notificationsEnabled st' = notificationsEnabled st.
Proof.
  intros Hruns. cbv zeta. rewrite fetch_strong_ok by done. cbn [next].
  set (st0 := if negb isPolling then setLoading true st else st).
  set (o := completedNotifications env fetchedData st0).
  set (st1 := setPreviousStrongMatchJobIds (idSet fetchedData) (next o)).
  destruct (commitFetched_refs now "strong" isPolling fetchedData st1) as (Hp & Hi & He & _).
  destruct (setLoading_if_refs (negb isPolling) true st) as (_ & Hi0 & He0 & _).
  fold st0 in Hi0, He0.
  destruct (setLoading_if_refs (negb isPolling) false
              (commitFetched now "strong" isPolling fetchedData st1)) as (Hp' & Hi' & He' & _).
  cbv zeta in *. rewrite Hp', Hi', He', Hp, Hi, He.
  subst st1. cbn.
  subst o. rewrite completedNotifications_flag, completedNotifications_enabled, Hi0, He0.
  auto.
Qed.

Lemma fetch_strong_ok_notified (env : Platform) (now : Z) (isPolling : bool)
    (fetchedData : list Job) (st : State) :
  runsThrough env st fetchedData →
  let o := fetchJobsByRelevance env now "strong" isPolling (Ok fetchedData) st in
  let o0 := completedNotifications env fetchedData
              (if negb isPolling then setLoading true st else st) in
  notified o = notified o0 ∧ effects o = effects o0.
Proof. intros Hruns. cbv zeta. rewrite fetch_strong_ok by done. destruct isPolling; auto. Qed.

(** The diff of one fetch is taken against the id set stored before it. *)
Lemma fetch_strong_diff (env : Platform) (now : Z) (isPolling : bool)
    (fetchedData : list Job) (st : State) :
  notificationsEnabled st = true →
  isInitialRelevantJobsLoad st = false →
  runsThrough env st fetchedData →
  notified (fetchJobsByRelevance env now "strong" isPolling (Ok fetchedData) st)
  = newStrongMatchJobs (previousStrongMatchJobIds st) fetchedData.
Proof.
  intros He Hi Hruns.
  destruct (fetch_strong_ok_notified env now isPolling fetchedData st Hruns) as [-> _].
  destruct (setLoading_if_refs (negb isPolling) true st) as (Hp0 & Hi0 & He0 & _).
  cbv zeta in *.
  rewrite completedNotifications_diff by congruence.
  by rewrite Hp0.
Qed.

Lemma validJobs_all_valid (data : list Job) :
  Forall (λ job, not_nullish (id job) = true) data → validJobs data = data.
Proof.
  unfold validJobs. induction 1 as [|job data Hjob _ IH]; [done|].
  rewrite filter_cons_True by done. by rewrite IH.
Qed.

(** ** Worked scenarios of the specification *)

Example scenarioA_runs :
  effects scenarioA = []
  ∧ previousStrongMatchJobIds (next scenarioA) = {["1"; "2"]}
  ∧ isInitialRelevantJobsLoad (next scenarioA) = false.
Proof. vm_compute. auto. Qed.

Example scenarioB_runs :
  notified scenarioB = [item "3"]
  ∧ effects scenarioB
    = [ NativeNotification (notificationBody "Job 3" "No description available");
        Toast (NewStrongMatchJob "Job 3");
        Toast (NewStrongMatchJobsFound 1) ]
  ∧ previousStrongMatchJobIds (next scenarioB) = {["1"; "2"; "3"]}
  ∧ jobs (next scenarioB) = [item "3"; item "1"; item "2"].
Proof. vm_compute. auto. Qed.

(** ** C1: baseline adoption *)

(** C1, as stated, fails: the page mounts with the baseline flag set, and
    with notifications disabled the first strong-match fetch leaves the flag
    set instead of flipping it to false. *)
Lemma baseline_flag_survives_disabled_fetch :
  isInitialRelevantJobsLoad firstVisit = true
  ∧ isInitialRelevantJobsLoad
      (next (fetchJobsByRelevance chrome 1 "strong" false
               (Ok [item "1"; item "2"]) firstVisit)) ≠ false.
Proof. vm_compute. split; [reflexivity | discriminate]. Qed.

(** C1 (amended): while the baseline flag is set, a successful strong-match
    fetch announces nothing whatever the snapshot holds, and the stored id
    set becomes the set of [String(id)] of all snapshot items; the flag
    flips to false when notifications are enabled and stays set when they
    are disabled. *)
Theorem baseline_adoption (env : Platform) (now : Z) (isPolling : bool)
    (fetchedData : list Job) (st : State) :
  isInitialRelevantJobsLoad st = true →
  notified (fetchJobsByRelevance env now "strong" isPolling (Ok fetchedData) st) = []
  ∧ effects (fetchJobsByRelevance env now "strong" isPolling (Ok fetchedData) st) = []
  ∧ previousStrongMatchJobIds
      (next (fetchJobsByRelevance env now "strong" isPolling (Ok fetchedData) st))
    = idSet fetchedData
  ∧ isInitialRelevantJobsLoad
      (next (fetchJobsByRelevance env now "strong" isPolling (Ok fetchedData) st))
    = negb (notificationsEnabled st).
Proof.
  intros Hi.
  assert (Hruns : runsThrough env st fetchedData) by (right; by left).
  destruct (fetch_strong_ok_notified env now isPolling fetchedData st Hruns) as [-> ->].
  destruct (fetch_strong_ok_refs env now isPolling fetchedData st Hruns) as (-> & -> & _).
  destruct (setLoading_if_refs (negb isPolling) true st) as (_ & Hi0 & _).
  cbv zeta in *.
  destruct (completedNotifications_baseline env fetchedData
              (if negb isPolling then setLoading true st else st)) as [-> ->];
    [congruence|].
  by rewrite Hi.
Qed.

Lemma baseline_adoption_witness :
  isInitialRelevantJobsLoad scenarioStart = true
  ∧ notified scenarioA = []
  ∧ effects scenarioA = []
  ∧ previousStrongMatchJobIds (next scenarioA) = idSet [item "1"; item "2"]
  ∧ isInitialRelevantJobsLoad (next scenarioA) = negb (notificationsEnabled scenarioStart).
Proof.
  split; [reflexivity|].
  apply (baseline_adoption chrome 1 false [item "1"; item "2"] scenarioStart).
  reflexivity.
Defined.

(** ** C2: the diff between two consecutive snapshots *)

(** C2, as stated, fails on snapshots that hold items without an id: after
    [snapshotOne] then [snapshotTwo] nothing is announced, while the ids of
    the second snapshot minus those of the first is not empty, whether the
    ids of a snapshot are taken over all its items or over the items that
    have an id.  It also fails while notifications are disabled: nothing is
    announced for the new item "3". *)
Lemma diff_is_not_plain_set_difference :
  idSet (notified (fetchJobsByRelevance chrome 2 "strong" true (Ok snapshotTwo) afterSnapshotOne))
    ≠ idSet snapshotTwo ∖ idSet snapshotOne
  ∧ idSet (notified (fetchJobsByRelevance chrome 2 "strong" true (Ok snapshotTwo) afterSnapshotOne))
    ≠ idSet (validJobs snapshotTwo) ∖ idSet (validJobs snapshotOne)
  ∧ idSet (notified (fetchJobsByRelevance chrome 2 "strong" false
                       (Ok [item "1"; item "2"; item "3"])
                       (next (fetchJobsByRelevance chrome 1 "strong" false
                                (Ok [item "1"; item "2"]) firstVisit))))
    ≠ idSet [item "1"; item "2"; item "3"] ∖ idSet [item "1"; item "2"].
Proof. vm_compute. repeat split; discriminate. Qed.

(** C2 (amended): with notifications enabled, for strong-match snapshots
    [S1] then [S2] fetched one after the other, neither fetch being cut short
    by an alert that throws (the permission is not granted, or every item to
    announce has a title), the items announced after [S2] are the items of [S2] that
    have an id and whose [String(id)] is not among the [String(id)] of the
    items of [S1]; the stored id set is the one left by [S1] while the diff
    is taken and is the id set of [S2] after it.  When every item of [S2]
    has an id this is ids(S2) minus ids(S1). *)
Theorem diff_between_snapshots (env1 env2 : Platform) (now1 now2 : Z)
    (poll1 poll2 : bool) (S1 S2 : list Job) (st : State) :
  notificationsEnabled st = true →
  runsThrough env1 st S1 →
  safeToAnnounce env2 (newStrongMatchJobs (idSet S1) S2) →
  let st1 := next (fetchJobsByRelevance env1 now1 "strong" poll1 (Ok S1) st) in
  let o := fetchJobsByRelevance env2 now2 "strong" poll2 (Ok S2) st1 in
  previousStrongMatchJobIds st1 = idSet S1
  ∧ notified o = filter (λ job, jobKey job ∉ idSet S1) (validJobs S2)
  ∧ idSet (notified o) = idSet (validJobs S2) ∖ idSet S1
  ∧ previousStrongMatchJobIds (next o) = idSet S2
  ∧ (Forall (λ job, not_nullish (id job) = true) S2 →
     idSet (notified o) = idSet S2 ∖ idSet S1).
Proof.
  intros He Hruns1 Hsafe2 st1 o.
  destruct (fetch_strong_ok_refs env1 now1 poll1 S1 st Hruns1) as (Hp1 & Hi1 & He1).
  cbv zeta in Hp1, Hi1, He1. fold st1 in Hp1, Hi1, He1.
  assert (Hruns2 : runsThrough env2 st1 S2).
  { right. right. by rewrite Hp1. }
  destruct (fetch_strong_ok_refs env2 now2 poll2 S2 st1 Hruns2) as (Hp2 & _).
  cbv zeta in *.
  rewrite He in Hi1, He1. rewrite andb_false_r in Hi1.
  assert (Hn : notified o = filter (λ job, jobKey job ∉ idSet S1) (validJobs S2)).
  { subst o. rewrite fetch_strong_diff by done. by rewrite Hp1. }
  assert (Hd : idSet (notified o) = idSet (validJobs S2) ∖ idSet S1).
  { rewrite Hn. apply idSet_filter_difference. }
  repeat split; try done.
  intros Hall. rewrite Hd. by rewrite validJobs_all_valid.
Qed.

Lemma diff_between_snapshots_witness :
  notificationsEnabled scenarioStart = true
  ∧ runsThrough chrome scenarioStart [item "1"; item "2"]
  ∧ safeToAnnounce chrome
      (newStrongMatchJobs (idSet [item "1"; item "2"]) [item "1"; item "2"; item "3"])
  ∧ previousStrongMatchJobIds (next scenarioA) = idSet [item "1"; item "2"]
  ∧ notified scenarioB
    = filter (λ job, jobKey job ∉ idSet [item "1"; item "2"])
        (validJobs [item "1"; item "2"; item "3"])
  ∧ idSet (notified scenarioB)
    = idSet (validJobs [item "1"; item "2"; item "3"]) ∖ idSet [item "1"; item "2"]
  ∧ previousStrongMatchJobIds (next scenarioB) = idSet [item "1"; item "2"; item "3"]
  ∧ (Forall (λ job, not_nullish (id job) = true) [item "1"; item "2"; item "3"] →
     idSet (notified scenarioB)
     = idSet [item "1"; item "2"; item "3"] ∖ idSet [item "1"; item "2"]).
Proof.
  assert (Hruns : runsThrough chrome scenarioStart [item "1"; item "2"])
    by (right; left; reflexivity).
  assert (Hsafe : safeToAnnounce chrome
                    (newStrongMatchJobs (idSet [item "1"; item "2"])
                       [item "1"; item "2"; item "3"])).
  { apply safeToAnnounce_fresh. intros _. repeat constructor; eexists; reflexivity. }
  split; [reflexivity|]. split; [exact Hruns|]. split; [exact Hsafe|].
  apply (diff_between_snapshots chrome chrome 1 2 false true
           [item "1"; item "2"] [item "1"; item "2"; item "3"] scenarioStart);
    [reflexivity | exact Hruns | exact Hsafe].
Defined.

(** ** C3: the stored id set after a strong-match fetch *)

(** C3, as stated, fails.  The stored id set is not built from the items
    the diff keeps (those with a non-null id): after [snapshotOne], whose
    only item has a null id, it holds the key "null" while the filtered
    items have no key at all.  And a fetch that succeeded does not always
    reach the line that stores the set: with a new item that has no title
    and the permission granted, the alert call throws and the set is left
    as the previous fetch stored it. *)
Lemma seen_ids_are_not_the_filtered_ids :
  previousStrongMatchJobIds afterSnapshotOne ≠ idSet (validJobs snapshotOne)
  ∧ previousStrongMatchJobIds
      (next (fetchJobsByRelevance chrome 2 "strong" true
               (Ok [item "1"; item "2"; untitled "3"]) (next scenarioA)))
    ≠ idSet [item "1"; item "2"; untitled "3"]
  ∧ previousStrongMatchJobIds
      (next (fetchJobsByRelevance chrome 2 "strong" true
               (Ok [item "1"; item "2"; untitled "3"]) (next scenarioA)))
    ≠ idSet (validJobs [item "1"; item "2"; untitled "3"]).
Proof. vm_compute. repeat split; discriminate. Qed.

(** C3 (amended): after a successful strong-match fetch whose notification
    block ran to its end (notifications are disabled, or the fetch is the
    baseline pass, or no alert call can throw: the permission is not granted
    or every item has a title), the stored id set is exactly the set of
    [String(id)] of all the items of that fetch's snapshot, those without an
    id included. *)
Theorem seen_ids_track_snapshot (env : Platform) (now : Z) (isPolling : bool)
    (fetchedData : list Job) (st : State) :
  runsThrough env st fetchedData →
  previousStrongMatchJobIds
    (next (fetchJobsByRelevance env now "strong" isPolling (Ok fetchedData) st))
  = idSet fetchedData
  ∧ ∀ k : string,
      k ∈ previousStrongMatchJobIds
            (next (fetchJobsByRelevance env now "strong" isPolling (Ok fetchedData) st))
      ↔ ∃ job, job ∈ fetchedData ∧ String_of (id job) = k.
Proof.
  intros Hruns.
  destruct (fetch_strong_ok_refs env now isPolling fetchedData st Hruns) as (Hp & _).
  cbv zeta in Hp. rewrite Hp. split; [done|].
  intros k. apply elem_of_idSet.
Qed.

Lemma seen_ids_track_snapshot_witness :
  runsThrough chrome scenarioStart snapshotOne
  ∧ previousStrongMatchJobIds afterSnapshotOne = idSet snapshotOne
  ∧ ∀ k : string,
      k ∈ previousStrongMatchJobIds afterSnapshotOne
      ↔ ∃ job, job ∈ snapshotOne ∧ String_of (id job) = k.
Proof.
  assert (Hruns : runsThrough chrome scenarioStart snapshotOne)
    by (right; left; reflexivity).
  split; [exact Hruns|].
  exact (seen_ids_track_snapshot chrome 1 false snapshotOne scenarioStart Hruns).
Defined.

(** An item without an id still leaves its key in the stored set. *)
Example seen_ids_keep_items_without_id :
  previousStrongMatchJobIds afterSnapshotOne = {["null"]}.
Proof. vm_compute. reflexivity. Qed.

(** ** C4: background merge into the feed list *)

Lemma filter_none {A : Type} (P : A → Prop) `{∀ x, Decision (P x)} (l : list A) :
  (∀ x, x ∈ l → ¬ P x) → filter P l = [].
Proof.
  induction l as [|x l IH]; intros Hl; [done|].
  rewrite filter_cons_False by (apply Hl; left).
  apply IH. intros y Hy. apply Hl. by right.
Qed.

Lemma mergeJobs_prepends (prevJobs fetchedData : list Job) :
  mergeJobs prevJobs fetchedData
  = filter (λ job, jobKey job ∉ idSet prevJobs) fetchedData ++ prevJobs.
Proof. unfold mergeJobs. by destruct (filter _ fetchedData). Qed.

Lemma mergeJobs_covers (prevJobs fetchedData : list Job) (job : Job) :
  job ∈ fetchedData → jobKey job ∈ idSet (mergeJobs prevJobs fetchedData).
Proof.
  intros Hin. rewrite mergeJobs_prepends.
  destruct (decide (jobKey job ∈ idSet prevJobs)) as [Hold|Hnew].
  - apply elem_of_idSet in Hold as (old & Hold & Hkey).
    apply elem_of_idSet. exists old. split; [|done].
    apply elem_of_app. by right.
  - apply elem_of_idSet. exists job. split; [|done].
    apply elem_of_app. left. apply list_elem_of_filter. auto.
Qed.

Lemma mergeJobs_idempotent (prevJobs fetchedData : list Job) :
  mergeJobs (mergeJobs prevJobs fetchedData) fetchedData
  = mergeJobs prevJobs fetchedData.
Proof.
  rewrite (mergeJobs_prepends (mergeJobs prevJobs fetchedData)).
  rewrite filter_none; [done|].
  intros job Hin Hnew. apply Hnew. by apply mergeJobs_covers.
Qed.

Lemma completedNotifications_jobs (env : Platform) (fetchedData : list Job) (st : State) :
  jobs (next (completedNotifications env fetchedData st)) = jobs st.
Proof.
  unfold completedNotifications.
  destruct (notificationsEnabled st), (isInitialRelevantJobsLoad st); cbn; auto.
  destruct (newStrongMatchJobs _ _); cbn; auto.
Qed.

(** The merge step of a background poll in strong-match mode. *)
Lemma commitFetched_poll_jobs (now : Z) (fetchedData : list Job) (st : State) :
  jobs (commitFetched now "strong" true fetchedData st) = mergeJobs (jobs st) fetchedData.
Proof. unfold commitFetched. by rewrite strong_is_strong, strong_is_not_all. Qed.

Lemma poll_strong_ok_jobs (env : Platform) (now : Z) (fetchedData : list Job) (st : State) :
  runsThrough env st fetchedData →
  jobs (next (fetchJobsByRelevance env now "strong" true (Ok fetchedData) st))
  = mergeJobs (jobs st) fetchedData.
Proof.
  intros Hruns. rewrite fetch_strong_ok by done. cbn [next negb].
  rewrite commitFetched_poll_jobs. cbn.
  by rewrite completedNotifications_jobs.
Qed.

(** C4: the merge step of a background poll in strong-match mode (lines
    296-310, [commitFetched] with [isPolling] set) prepends to the previous
    feed list exactly the snapshot items whose [String(id)] is not the
    [String(id)] of an item already in the list, keeps the previous entries
    and their order, gives back the previous list when there is no such
    item, and merging the same snapshot a second time changes nothing. *)
Theorem background_merge (now now' : Z) (snapshot : list Job) (st : State) :
  let st' := commitFetched now "strong" true snapshot st in
  let newItems := filter (λ job, jobKey job ∉ idSet (jobs st)) snapshot in
  jobs st' = newItems ++ jobs st
  ∧ (∀ job, job ∈ newItems ↔
       job ∈ snapshot
       ∧ ∀ old, old ∈ jobs st → String_of (id old) ≠ String_of (id job))
  ∧ (newItems = [] → jobs st' = jobs st)
  ∧ jobs (commitFetched now' "strong" true snapshot st') = jobs st'.
Proof.
  intros st' newItems. subst st'.
  rewrite !commitFetched_poll_jobs, mergeJobs_idempotent, mergeJobs_prepends.
  fold newItems. repeat split; try done.
  - apply list_elem_of_filter in H. tauto.
  - intros old Hold Hkey.
    apply list_elem_of_filter in H as [Hnew _]. apply Hnew.
    apply elem_of_idSet. by exists old.
  - intros [Hin Hnew]. apply list_elem_of_filter. split; [|done].
    intros (old & Hold & Hkey)%elem_of_idSet. by apply (Hnew old).
  - by intros ->.
Qed.

(** ** C5 and C10: failed fetches *)

(** C5, as stated, fails for background polls: a poll that cannot reach the
    server neither swaps the feed list for the sample jobs nor shows the
    warning. *)
Lemma failed_poll_keeps_feed :
  isFailure TransportFailure = true
  ∧ jobs (next (fetchJobsByRelevance chrome 2 "strong" true TransportFailure (next scenarioA)))
    ≠ sampleJobs
  ∧ Toast ApiUnavailable
    ∉ effects (fetchJobsByRelevance chrome 2 "strong" true TransportFailure (next scenarioA)).
Proof.
  vm_compute. split; [reflexivity|]. split; [discriminate|]. apply not_elem_of_nil.
Qed.

(** C5 (amended): every fetch that is not a background poll, be it through
    [fetchJobsData] or through [fetchJobsByRelevance], and that ends in a
    non-success status or a transport failure replaces the feed list by the
    sample jobs, raises the api-error flag, shows the one "API Unavailable"
    warning and clears the loading indicator. *)
Theorem failed_fetch_falls_back (env : Platform) (now : Z) (relevance : string)
    (resp : Response) (st : State) :
  isFailure resp = true →
  (jobs (next (fetchJobsByRelevance env now relevance false resp st)) = sampleJobs
   ∧ apiError (next (fetchJobsByRelevance env now relevance false resp st)) = true
   ∧ loading (next (fetchJobsByRelevance env now relevance false resp st)) = false
   ∧ effects (fetchJobsByRelevance env now relevance false resp st) = [Toast ApiUnavailable])
  ∧ (jobs (next (fetchJobsData now resp st)) = sampleJobs
     ∧ apiError (next (fetchJobsData now resp st)) = true
     ∧ loading (next (fetchJobsData now resp st)) = false
     ∧ effects (fetchJobsData now resp st) = [Toast ApiUnavailable])
  ∧ toastTitle ApiUnavailable = "API Unavailable".
Proof.
  intros Hfail. split; [|split; [|done]].
  - unfold fetchJobsByRelevance, fetchJobsByRelevance_try.
    destruct (bool_decide (relevance = "all")), (bool_decide (relevance = "strong")),
      resp; try discriminate; cbn; auto.
  - unfold fetchJobsData. destruct resp; try discriminate; cbn; auto.
Qed.

Lemma failed_fetch_falls_back_witness :
  isFailure (HttpError 503) = true
  ∧ (jobs (next (fetchJobsByRelevance chrome 2 "strong" false (HttpError 503) (next scenarioA)))
     = sampleJobs
     ∧ apiError (next (fetchJobsByRelevance chrome 2 "strong" false (HttpError 503) (next scenarioA)))
       = true
     ∧ loading (next (fetchJobsByRelevance chrome 2 "strong" false (HttpError 503) (next scenarioA)))
       = false
     ∧ effects (fetchJobsByRelevance chrome 2 "strong" false (HttpError 503) (next scenarioA))
       = [Toast ApiUnavailable])
  ∧ (jobs (next (fetchJobsData 2 (HttpError 503) (next scenarioA))) = sampleJobs
     ∧ apiError (next (fetchJobsData 2 (HttpError 503) (next scenarioA))) = true
     ∧ loading (next (fetchJobsData 2 (HttpError 503) (next scenarioA))) = false
     ∧ effects (fetchJobsData 2 (HttpError 503) (next scenarioA)) = [Toast ApiUnavailable])
  ∧ toastTitle ApiUnavailable = "API Unavailable".
Proof.
  split; [reflexivity|].
  apply (failed_fetch_falls_back chrome 2 "strong" (HttpError 503) (next scenarioA)).
  reflexivity.
Defined.

(** C10: a background poll whose fetch fails leaves the whole state as it
    was (feed list, stored id set, baseline flag, api-error flag, loading
    indicator and the rest) and produces neither the sample-data fallback
    nor any message. *)
Theorem failed_poll_is_atomic (env : Platform) (now : Z) (relevance : string)
    (resp : Response) (st : State) :
  relevance = "all" ∨ relevance = "strong" →
  isFailure resp = true →
  fetchJobsByRelevance env now relevance true resp st = silent st.
Proof.
  intros [-> | ->] Hfail; unfold fetchJobsByRelevance, fetchJobsByRelevance_try;
    destruct resp; try discriminate; reflexivity.
Qed.

Lemma failed_poll_is_atomic_witness :
  ("strong" = "all" ∨ "strong" = "strong")
  ∧ isFailure TransportFailure = true
  ∧ fetchJobsByRelevance chrome 2 "strong" true TransportFailure (next scenarioA)
    = silent (next scenarioA).
Proof.
  split; [by right|]. split; [reflexivity|].
  apply (failed_poll_is_atomic chrome 2 "strong" TransportFailure (next scenarioA));
    [by right | reflexivity].
Defined.

(** ** C7: toggling off and on again *)

(** C7: switching notifications off and then on again, the permission being
    granted already, leaves notifications enabled with an empty stored id
    set and the baseline flag set, so that the next successful strong-match
    fetch announces nothing, whatever snapshot it brings (one seen before
    included). *)
Theorem toggle_round_trip (env env' : Platform) (req req' : RequestOutcome) (st : State) :
  notificationsEnabled st = true →
  permission env' = granted →
  let st1 := next (toggleNotifications env req st) in
  let st2 := next (toggleNotifications env' req' st1) in
  notificationsEnabled st1 = false
  ∧ notificationsEnabled st2 = true
  ∧ storedPreference st2 = Some "true"
  ∧ previousStrongMatchJobIds st2 = ∅
  ∧ isInitialRelevantJobsLoad st2 = true
  ∧ ∀ (envf : Platform) (now : Z) (isPolling : bool) (snapshot : list Job),
      notified (fetchJobsByRelevance envf now "strong" isPolling (Ok snapshot) st2) = []
      ∧ effects (fetchJobsByRelevance envf now "strong" isPolling (Ok snapshot) st2) = [].
Proof.
  intros He Hperm st1 st2.
  assert (H1 : st1 = next (disable st)).
  { subst st1. unfold toggleNotifications. by rewrite He. }
  assert (H2 : st2 = next (enable st1)).
  { subst st2. unfold toggleNotifications. rewrite H1. cbn.
    by destruct (decide (permission env' = granted)). }
  assert (Hi2 : isInitialRelevantJobsLoad st2 = true) by (by rewrite H2).
  split; [by rewrite H1|]. do 3 (split; [by rewrite H2|]). split; [done|].
  intros envf now isPolling snapshot.
  destruct (fetch_strong_ok_notified envf now isPolling snapshot st2) as [-> ->].
  { right. by left. }
  cbv zeta. apply completedNotifications_baseline. by destruct isPolling.
Qed.

Lemma toggle_round_trip_witness :
  notificationsEnabled (next scenarioA) = true
  ∧ permission chrome = granted
  ∧ notificationsEnabled (next (toggleNotifications chrome Rejected (next scenarioA))) = false
  ∧ notificationsEnabled toggledOffAndOn = true
  ∧ storedPreference toggledOffAndOn = Some "true"
  ∧ previousStrongMatchJobIds toggledOffAndOn = ∅
  ∧ isInitialRelevantJobsLoad toggledOffAndOn = true
  ∧ ∀ (envf : Platform) (now : Z) (isPolling : bool) (snapshot : list Job),
      notified (fetchJobsByRelevance envf now "strong" isPolling (Ok snapshot) toggledOffAndOn) = []
      ∧ effects (fetchJobsByRelevance envf now "strong" isPolling (Ok snapshot) toggledOffAndOn) = [].
Proof.
  split; [reflexivity|]. split; [reflexivity|].
  apply (toggle_round_trip chrome chrome Rejected Rejected (next scenarioA));
    reflexivity.
Defined.

(** The snapshot of scenario A, fetched again after the round trip, is
    announced to nobody. *)
Example seen_snapshot_after_round_trip :
  effects (fetchJobsByRelevance chrome 3 "strong" false
             (Ok [item "1"; item "2"]) toggledOffAndOn) = [].
Proof. vm_compute. reflexivity. Qed.

(** ** C8: the body of the native alert *)

Lemma length_substring_prefix (limit : nat) (s : string) :
  (limit ≤ String.length s)%nat → String.length (String.substring 0 limit s) = limit.
Proof.
  revert s. induction limit as [|limit IH]; intros s Hle.
  - by destruct s.
  - destruct s as [|c s]; cbn in *; [lia|]. rewrite IH; lia.
Qed.





Example verboseJob_alert :
  notifyJob chrome verboseJob
  = Some [ NativeNotification
             ("Details: Senior full-stack engineer wanted for a long-running marketplace rebuild with React, TypeScript, Nod..."
                +:+ newline +:+ newline +:+ "Short brief.");
           Toast (NewStrongMatchJob
                    "Senior full-stack engineer wanted for a long-running marketplace rebuild with React, TypeScript, Nod...") ].
Proof. vm_compute. reflexivity. Qed.

(** ** C9: sessions with notifications disabled *)

Lemma silent_quiet (st : State) : quiet (silent st).
Proof. split; [done | constructor]. Qed.

Lemma fetchJobsData_quiet (now : Z) (resp : Response) (st : State) :
  quiet (fetchJobsData now resp st)
  ∧ notificationsEnabled (next (fetchJobsData now resp st)) = notificationsEnabled st.
Proof.
  unfold fetchJobsData, quiet. destruct resp; cbn; repeat split; auto;
    repeat constructor.
Qed.

Lemma processNotifications_disabled (env : Platform) (fetchedData : list Job) (st : State) :
  notificationsEnabled st = false →
  processNotifications env fetchedData st = Returned (silent st).
Proof. intros He. unfold processNotifications. by rewrite He. Qed.

Lemma fetchJobsByRelevance_disabled (env : Platform) (now : Z) (relevance : string)
    (isPolling : bool) (resp : Response) (st : State) :
  notificationsEnabled st = false →
  quiet (fetchJobsByRelevance env now relevance isPolling resp st)
  ∧ notificationsEnabled (next (fetchJobsByRelevance env now relevance isPolling resp st))
    = false.
Proof.
  intros He. unfold fetchJobsByRelevance, fetchJobsByRelevance_try, quiet.
  destruct (bool_decide (relevance = "all")) eqn:Hall,
    (bool_decide (relevance = "strong")) eqn:Hstrong, resp, isPolling;
    rewrite ?processNotifications_disabled by done;
    unfold commitFetched; rewrite ?Hall, ?Hstrong; cbn;
    repeat split; auto; repeat constructor.
Qed.

Lemma cycle_disabled (env : Platform) (c : Cycle) (st : State) :
  notificationsEnabled st = false →
  quiet (cycle env c st) ∧ notificationsEnabled (next (cycle env c st)) = false.
Proof.
  intros He. destruct c as [now resp | now resp | now v resp]; cbn.
  - unfold handleManualRefresh. case_bool_decide.
    + by apply fetchJobsByRelevance_disabled.
    + destruct (fetchJobsData_quiet now resp st) as [Hq Hn]. split; [done | congruence].
  - unfold pollTick. rewrite He, andb_false_r. split; [apply silent_quiet | done].
  - unfold selectRelevance. repeat case_bool_decide.
    + by apply fetchJobsByRelevance_disabled.
    + destruct (fetchJobsData_quiet now resp (setRelevanceFilter v st)) as [Hq Hn].
      split; [done|]. by rewrite Hn.
    + split; [apply silent_quiet | done].
Qed.

Lemma runCycles_disabled (env : Platform) (cs : list Cycle) (st : State) :
  notificationsEnabled st = false →
  quiet (runCycles env cs st) ∧ notificationsEnabled (next (runCycles env cs st)) = false.
Proof.
  revert st. induction cs as [|c cs IH]; intros st He; cbn.
  - split; [apply silent_quiet | done].
  - destruct (cycle_disabled env c st He) as [[Hn Hq] He'].
    destruct (IH _ He') as [[Hn' Hq'] He''].
    split; [split|done]; cbn.
    + by rewrite Hn, Hn'.
    + by apply Forall_app.
Qed.

Lemma runCycles_app (env : Platform) (cs cs' : list Cycle) (st : State) :
  next (runCycles env (cs ++ cs') st)
  = next (runCycles env cs' (next (runCycles env cs st))).
Proof. revert st. induction cs as [|c cs IH]; intros st; cbn; [done | apply IH]. Qed.

Lemma foreground_fetch_replaces (env : Platform) (now : Z) (data : list Job) (st : State) :
  runsThrough env st data →
  jobs (next (fetchJobsByRelevance env now "strong" false (Ok data) st)) = data.
Proof.
  intros Hruns. rewrite fetch_strong_ok by done.
  cbn [next negb]. unfold commitFetched. by cbn.
Qed.

Lemma fetchJobsData_replaces (now : Z) (data : list Job) (st : State) :
  jobs (next (fetchJobsData now (Ok data) st)) = data.
Proof. reflexivity. Qed.

(** C9: in a session that starts with notifications disabled and in which
    the toggle is left alone, no fetch cycle fires a native alert or an
    in-app new-job message, however many unseen ids its snapshot brings;
    still every manual refresh and every change of the relevance filter
    that fetches successfully puts the fetched data in the feed list.  (The
    timer callback does not fetch at all while notifications are disabled.) *)
Theorem disabled_session_is_quiet (env : Platform) (cs : list Cycle) (st : State) :
  notificationsEnabled st = false →
  notified (runCycles env cs st) = []
  ∧ Forall (λ e, isNewJobAlert e = false) (effects (runCycles env cs st))
  ∧ notificationsEnabled (next (runCycles env cs st)) = false
  ∧ (∀ now data,
       jobs (next (runCycles env (cs ++ [ManualRefresh now (Ok data)]) st)) = data)
  ∧ (∀ now v data,
       v = "strong" ∨ v = "all" →
       jobs (next (runCycles env (cs ++ [SelectRelevance now v (Ok data)]) st)) = data)
  ∧ (∀ now resp,
       runCycles env [PollTick now resp] (next (runCycles env cs st))
       = silent (next (runCycles env cs st))).
Proof.
  intros He. destruct (runCycles_disabled env cs st He) as [[Hn Hq] He'].
  split; [done|]. split; [done|]. split; [done|]. split; [|split].
  - intros now data. rewrite runCycles_app. cbn. unfold handleManualRefresh.
    case_bool_decide; [|apply fetchJobsData_replaces].
    apply foreground_fetch_replaces. by left.
  - intros now v data [-> | ->]; rewrite runCycles_app; cbn; unfold selectRelevance.
    + rewrite strong_is_strong. apply foreground_fetch_replaces. by left.
    + replace (bool_decide ("all" = "strong")) with false by reflexivity.
      replace (bool_decide ("all" = "all")) with true by reflexivity.
      apply fetchJobsData_replaces.
  - intros now resp. cbn. unfold pollTick. by rewrite He', andb_false_r.
Qed.

Lemma disabled_session_is_quiet_witness :
  notificationsEnabled firstVisit = false
  ∧ notified (runCycles chrome busyDay firstVisit) = []
  ∧ Forall (λ e, isNewJobAlert e = false) (effects (runCycles chrome busyDay firstVisit))
  ∧ notificationsEnabled (next (runCycles chrome busyDay firstVisit)) = false
  ∧ (∀ now data,
       jobs (next (runCycles chrome (busyDay ++ [ManualRefresh now (Ok data)]) firstVisit))
       = data)
  ∧ (∀ now v data,
       v = "strong" ∨ v = "all" →
       jobs (next (runCycles chrome (busyDay ++ [SelectRelevance now v (Ok data)]) firstVisit))
       = data)
  ∧ (∀ now resp,
       runCycles chrome [PollTick now resp] (next (runCycles chrome busyDay firstVisit))
       = silent (next (runCycles chrome busyDay firstVisit))).
Proof.
  split; [reflexivity|].
  apply (disabled_session_is_quiet chrome busyDay firstVisit). reflexivity.
Defined.

Example busyDay_feed :
  jobs (next (runCycles chrome busyDay firstVisit)) = [item "7"; item "8"]
  ∧ effects (runCycles chrome busyDay firstVisit) = [Toast ApiUnavailable].
Proof. vm_compute. auto. Qed.

(** ** C6: the poll scheduler owns at most one timer *)

Section SchedulerInvariant.

Import Scheduler.

(** Closes the parts of [Inv] that a step leaves as they were in [H], and
    the bound on a remembered id that the step has just forgotten. *)
Local Ltac carry_over H :=
  first
    [ exact (inv_cleared _ H) | exact (inv_cleared_old _ H)
    | exact (inv_live_old _ H) | exact (inv_pollingInterval _ H)
    | exact (inv_startPollingSees _ H) | exact (inv_stopPollingSees _ H)
    | exact (inv_effectCleanup _ H) | exact (inv_teardownSees _ H)
    | by (intros ? [=]) ].

Lemma Inv_initial : Inv initial.
Proof. split; cbn; try done; intros i; by rewrite ?lookup_empty; intros []. Qed.

Lemma Inv_clearInterval (i : TimerId) (w : World) :
  Inv w → i < nextTimer w → Inv (clearInterval i w).
Proof.
  intros [] Hi. split; cbn; try done.
  - intros j c Hj. apply lookup_delete_Some in Hj as [_ Hj]. eauto.
  - intros j [->%elem_of_singleton | Hj]%elem_of_union.
    + apply lookup_delete_eq.
    + apply lookup_delete_None. auto.
  - intros j [->%elem_of_singleton | Hj]%elem_of_union; auto.
  - intros j [c Hj]. apply lookup_delete_Some in Hj as [_ Hj]. eauto.
Qed.

Lemma Inv_setPollingInterval (v : option TimerId) (w : World) :
  Inv w → known w v → Inv (setPollingInterval v w).
Proof. intros [] Hv. by split. Qed.

Lemma Inv_setTeardownSees (v : option TimerId) (w : World) :
  Inv w → known w v → Inv (setTeardownSees v w).
Proof. intros [] Hv. by split. Qed.

Lemma Inv_setLifecycle (v : Lifecycle) (w : World) :
  Inv w → Inv (setLifecycle v w).
Proof. intros []. by split. Qed.

Lemma Inv_stopPolling (sees : option TimerId) (w : World) :
  Inv w → known w sees → Inv (stopPolling sees w).
Proof.
  intros HI Hsees. destruct sees as [p|]; cbn; [|done].
  apply Inv_setPollingInterval; [|done].
  apply Inv_clearInterval; auto.
Qed.

Lemma stopPolling_timers (sees : option TimerId) (w : World) :
  timers w = ∅ → timers (stopPolling sees w) = ∅.
Proof. intros He. destruct sees; cbn; [|done]. rewrite He. apply delete_empty. Qed.

Lemma stopPolling_nextTimer (sees : option TimerId) (w : World) :
  nextTimer (stopPolling sees w) = nextTimer w.
Proof. by destruct sees. Qed.

Lemma stopPolling_cleared (sees : option TimerId) (w : World) :
  cleared w ⊆ cleared (stopPolling sees w).
Proof. destruct sees; cbn; set_solver. Qed.

(** The cleanup of the polling effect cancels every live timer. *)
Lemma pollingEffectCleanup_cancels (w : World) :
  Inv w →
  Inv (pollingEffectCleanup w)
  ∧ timers (pollingEffectCleanup w) = ∅
  ∧ (∀ i, is_Some (timers w !! i) → i ∈ cleared (pollingEffectCleanup w)).
Proof.
  intros HI. unfold pollingEffectCleanup.
  destruct (effectCleanup w) as [interval|] eqn:Hc.
  - assert (Hold : interval < nextTimer w) by (by apply (inv_effectCleanup w HI)).
    pose proof (Inv_clearInterval interval w HI Hold) as HI'.
    split; [|split].
    + split; try carry_over HI'.
      cbn. intros i c Hi. apply lookup_delete_Some in Hi as [Hne Hi].
      apply (inv_owned w HI) in Hi as [Hi _]. congruence.
    + apply map_eq. intros i. cbn. rewrite lookup_empty.
      apply lookup_delete_None.
      destruct (timers w !! i) as [c|] eqn:Hi; [left|by right].
      apply (inv_owned w HI) in Hi as [Hi _]. congruence.
    + intros i [c Hi]. apply (inv_owned w HI) in Hi as [Hi _].
      cbn. set_solver.
  - split; [done|]. split.
    + apply map_eq. intros i. rewrite lookup_empty.
      destruct (timers w !! i) as [c|] eqn:Hi; [|done].
      apply (inv_owned w HI) in Hi as [Hi _]. congruence.
    + intros i [c Hi]. apply (inv_owned w HI) in Hi as [Hi _]. congruence.
Qed.

Lemma pollingEffectCleanup_nextTimer (w : World) :
  nextTimer (pollingEffectCleanup w) = nextTimer w.
Proof. unfold pollingEffectCleanup. by destruct (effectCleanup w). Qed.

Lemma pollingEffectCleanup_cleared (w : World) :
  cleared w ⊆ cleared (pollingEffectCleanup w).
Proof. unfold pollingEffectCleanup. destruct (effectCleanup w); cbn; set_solver. Qed.

Lemma pollingEffectCleanup_stopPollingSees (w : World) :
  stopPollingSees (pollingEffectCleanup w) = stopPollingSees w
  ∧ teardownSees (pollingEffectCleanup w) = teardownSees w
  ∧ relevanceFilter (pollingEffectCleanup w) = relevanceFilter w
  ∧ notificationsEnabled (pollingEffectCleanup w) = notificationsEnabled w
  ∧ lifecycle (pollingEffectCleanup w) = lifecycle w.
Proof. unfold pollingEffectCleanup. by destruct (effectCleanup w). Qed.

Lemma stopPolling_page (sees : option TimerId) (w : World) :
  relevanceFilter (stopPolling sees w) = relevanceFilter w
  ∧ notificationsEnabled (stopPolling sees w) = notificationsEnabled w
  ∧ lifecycle (stopPolling sees w) = lifecycle w
  ∧ stopPollingSees (stopPolling sees w) = stopPollingSees w.
Proof. by destruct sees. Qed.

(** Outside strong-match mode, or with notifications disabled, the polling
    effect only stops. *)
Lemma pollingEffect_idle (w : World) :
  Inv w → timers w = ∅ →
  let w' := setEffectCleanup None (stopPolling (stopPollingSees w) w) in
  Inv w'
  ∧ (timers w' ≠ ∅ → relevanceFilter w = "strong" ∧ notificationsEnabled w = true)
  ∧ relevanceFilter w' = relevanceFilter w
  ∧ notificationsEnabled w' = notificationsEnabled w
  ∧ lifecycle w' = lifecycle w
  ∧ stopPollingSees w' = stopPollingSees w
  ∧ cleared w ⊆ cleared w'
  ∧ nextTimer w ≤ nextTimer w' ≤ S (nextTimer w).
Proof.
  intros HI Hempty.
  pose proof (Inv_stopPolling (stopPollingSees w) w HI (inv_stopPollingSees w HI)) as HI'.
  pose proof (stopPolling_timers (stopPollingSees w) w Hempty) as Ht.
  pose proof (stopPolling_nextTimer (stopPollingSees w) w) as Hn.
  pose proof (stopPolling_cleared (stopPollingSees w) w) as Hc.
  destruct (stopPolling_page (stopPollingSees w) w) as (Hf & He & Hl & Hs).
  revert HI' Ht Hn Hc Hf He Hl Hs.
  generalize (stopPolling (stopPollingSees w) w). intros w0 HI' Ht Hn Hc Hf He Hl Hs.
  cbv zeta. split; [|cbn; rewrite Ht, Hn; repeat split; auto with lia; done].
  split; try carry_over HI'.
  cbn. intros i c Hi. by rewrite Ht, lookup_empty in Hi.
Qed.

(** Started with no live timer, the polling effect leaves at most the one
    timer it installs, and installs it only in strong-match mode with
    notifications enabled. *)
Lemma pollingEffect_installs (w : World) :
  Inv w → timers w = ∅ →
  Inv (pollingEffect w)
  ∧ (timers (pollingEffect w) ≠ ∅ →
     relevanceFilter w = "strong" ∧ notificationsEnabled w = true)
  ∧ relevanceFilter (pollingEffect w) = relevanceFilter w
  ∧ notificationsEnabled (pollingEffect w) = notificationsEnabled w
  ∧ lifecycle (pollingEffect w) = lifecycle w
  ∧ stopPollingSees (pollingEffect w) = stopPollingSees w
  ∧ cleared w ⊆ cleared (pollingEffect w)
  ∧ nextTimer w ≤ nextTimer (pollingEffect w) ≤ S (nextTimer w).
Proof.
  intros HI Hempty. unfold pollingEffect.
  destruct (bool_decide (relevanceFilter w = "strong")) eqn:Hf;
    [destruct (notificationsEnabled w) eqn:He|]; cbn [andb].
  - apply bool_decide_eq_true in Hf. unfold startPolling.
    set (w1 := match startPollingSees w with
               | Some p => clearInterval p w
               | None => w
               end).
    assert (HI1 : Inv w1).
    { subst w1. destruct (startPollingSees w) as [p|] eqn:Hp; [|done].
      apply Inv_clearInterval; [done|]. by apply (inv_startPollingSees w HI). }
    assert (He1 : timers w1 = ∅).
    { subst w1. destruct (startPollingSees w); cbn; [|done].
      rewrite Hempty. apply delete_empty. }
    assert (Hn1 : nextTimer w1 = nextTimer w).
    { subst w1. by destruct (startPollingSees w). }
    assert (Hc1 : cleared w ⊆ cleared w1).
    { subst w1. destruct (startPollingSees w); cbn; set_solver. }
    assert (Hp1 : relevanceFilter w1 = relevanceFilter w
                  ∧ notificationsEnabled w1 = notificationsEnabled w
                  ∧ lifecycle w1 = lifecycle w
                  ∧ stopPollingSees w1 = stopPollingSees w).
    { subst w1. by destruct (startPollingSees w). }
    destruct Hp1 as (Hpf & Hpe & Hpl & Hps).
    cbn. rewrite He1, Hn1, Hpf, Hpe, Hpl, Hps, Hf, He.
    split; [|repeat split; auto with lia].
    destruct HI1 as []. unfold known in *. rewrite Hn1 in *. split; unfold known; cbn.
    + intros i c Hi. apply lookup_insert_Some in Hi as [[<- <-] | [_ Hi]]; [done|].
      by rewrite lookup_empty in Hi.
    + intros i Hi. apply lookup_insert_None. split; [apply lookup_empty|].
      apply inv_cleared_old0 in Hi. lia.
    + intros i Hi. apply inv_cleared_old0 in Hi. lia.
    + intros i [c Hi]. apply lookup_insert_Some in Hi as [[<- _] | [_ Hi]]; [lia|].
      by rewrite lookup_empty in Hi.
    + intros i [= <-]. lia.
    + intros i Hi. apply inv_startPollingSees0 in Hi. lia.
    + intros i Hi. rewrite <- Hps in Hi. apply inv_stopPollingSees0 in Hi. lia.
    + intros i [= <-]. lia.
    + intros i Hi. apply inv_teardownSees0 in Hi. lia.
  - pose proof (pollingEffect_idle w HI Hempty) as Hidle.
    cbv zeta in Hidle. by rewrite He in Hidle.
  - by apply pollingEffect_idle.
Qed.

Lemma Inv_single (w : World) : Inv w → size (timers w) ≤ 1.
Proof.
  intros HI. rewrite <- size_dom.
  destruct (effectCleanup w) as [k|] eqn:Hk.
  - rewrite <- (size_singleton (C := gset TimerId) k). apply subseteq_size.
    intros i [c Hi]%elem_of_dom. apply (inv_owned w HI) in Hi as [Hi _].
    apply elem_of_singleton. congruence.
  - replace (dom (timers w)) with (∅ : gset TimerId); [rewrite size_empty; lia|].
    symmetry. apply elem_of_equiv_empty_L. intros i [c Hi]%elem_of_dom.
    apply (inv_owned w HI) in Hi as [Hi _]. congruence.
Qed.

Lemma Inv_tick_cleared (w : World) (i : TimerId) :
  Inv w → i ∈ cleared w → tickRunsPipeline i w = false.
Proof. intros HI Hi. unfold tickRunsPipeline. by rewrite (inv_cleared w HI i Hi). Qed.

Lemma Inv_render (filter : string) (enabled fetchRebuilt : bool) (w : World) :
  Inv w → Inv (render filter enabled fetchRebuilt w).1.1.
Proof.
  intros HI. split; try apply HI; cbn; try apply HI.
  destruct (_ || _ || _ || _); apply HI.
Qed.

(** What one commit does to the timers. *)
Lemma commit_timers (filter : string) (enabled fetchRebuilt : bool) (w : World) :
  Inv w → Settled w →
  let mid := midCommit filter enabled fetchRebuilt w in
  let w' := commit filter enabled fetchRebuilt w in
  Inv mid ∧ Inv w' ∧ Settled w'
  ∧ (timers mid = ∅ ∨ (timers mid = timers w ∧ w' = mid))
  ∧ (timers mid = ∅ → ∀ i, is_Some (timers w !! i) → i ∈ cleared mid)
  ∧ cleared w ⊆ cleared mid ∧ cleared mid ⊆ cleared w'
  ∧ nextTimer mid = nextTimer w
  ∧ nextTimer w ≤ nextTimer w' ≤ S (nextTimer w)
  ∧ (nextTimer w < nextTimer w' → timers mid = ∅).
Proof.
  intros HI HS mid w'. subst mid w'. unfold commit, midCommit.
  pose proof (Inv_render filter enabled fetchRebuilt w HI) as HI1.
  destruct (render filter enabled fetchRebuilt w) as [[w1 startRebuilt] stopRebuilt] eqn:Hr.
  cbn [fst] in HI1.
  assert (Hw1 : timers w1 = timers w ∧ cleared w1 = cleared w ∧ nextTimer w1 = nextTimer w
                ∧ relevanceFilter w1 = filter ∧ notificationsEnabled w1 = enabled
                ∧ lifecycle w1 = Mounted).
  { unfold render in Hr. by injection Hr as <- _ _. }
  destruct Hw1 as (Ht1 & Hc1 & Hn1 & Hf1 & He1 & Hl1).
  assert (Hquiet : startRebuilt || stopRebuilt = false →
                   filter = relevanceFilter w ∧ enabled = notificationsEnabled w).
  { unfold render in Hr. injection Hr as _ <- <-. intros Hq.
    apply orb_false_elim in Hq as [Hq _].
    repeat (apply orb_false_elim in Hq as [Hq ?]).
    split; eapply bool_decide_eq_true_1; by apply negb_false_iff. }
  clear Hr. unfold runCleanups, runEffects.
  destruct (startRebuilt || stopRebuilt) eqn:Hrun.
  - destruct (pollingEffectCleanup_cancels w1 HI1) as (HI2 & Ht2 & Hcl2).
    pose proof (pollingEffectCleanup_cleared w1) as Hc2.
    pose proof (pollingEffectCleanup_nextTimer w1) as Hn2.
    destruct (pollingEffectCleanup_stopPollingSees w1) as (_ & Hts2 & Hf2 & He2 & Hl2).
    set (w2 := pollingEffectCleanup w1) in *.
    set (w3 := if stopRebuilt then teardownCleanup w2 else w2).
    assert (H3 : Inv w3 ∧ timers w3 = ∅ ∧ cleared w2 ⊆ cleared w3
                 ∧ nextTimer w3 = nextTimer w2
                 ∧ relevanceFilter w3 = relevanceFilter w2
                 ∧ notificationsEnabled w3 = notificationsEnabled w2
                 ∧ lifecycle w3 = lifecycle w2).
    { subst w3. destruct stopRebuilt; [|done]. unfold teardownCleanup.
      destruct (stopPolling_page (teardownSees w2) w2) as (? & ? & ? & _).
      split; [apply Inv_stopPolling; [done | apply (inv_teardownSees w2 HI2)]|].
      repeat split;
        auto using stopPolling_timers, stopPolling_cleared, stopPolling_nextTimer. }
    destruct H3 as (HI3 & Ht3 & Hc3 & Hn3 & Hf3 & He3 & Hl3).
    destruct (pollingEffect_installs w3 HI3 Ht3)
      as (HI4 & Hlive4 & Hf4 & He4 & Hl4 & Hs4 & Hc4 & Hn4).
    set (w4 := pollingEffect w3) in *.
    set (w5 := if stopRebuilt then setTeardownSees (stopPollingSees w4) w4 else w4).
    assert (H5 : Inv w5 ∧ timers w5 = timers w4 ∧ cleared w5 = cleared w4
                 ∧ nextTimer w5 = nextTimer w4
                 ∧ relevanceFilter w5 = relevanceFilter w4
                 ∧ notificationsEnabled w5 = notificationsEnabled w4
                 ∧ lifecycle w5 = lifecycle w4).
    { subst w5. destruct stopRebuilt; [|done].
      split; [|done].
      apply Inv_setTeardownSees; [done | apply (inv_stopPollingSees w4 HI4)]. }
    destruct H5 as (HI5 & Ht5 & Hc5 & Hn5 & Hf5 & He5 & Hl5).
    split; [done|]. split; [done|]. split.
    { intros Hlive. rewrite Ht5 in Hlive. destruct (Hlive4 Hlive) as [Hf He].
      rewrite Hf5, He5, Hl5, Hf4, He4, Hl4. split; [done|]. split; [done|]. congruence. }
    split; [by left|]. split.
    { intros _ i Hi. apply Hc3, Hcl2. by rewrite Ht1. }
    split; [rewrite <- Hc1; by etrans|]. split; [by rewrite Hc5|]. split; [congruence|].
    split; [lia|done].
  - apply orb_false_elim in Hrun as [-> ->].
    destruct (Hquiet eq_refl) as [-> ->].
    split; [done|]. split; [done|]. split.
    { intros Hlive. rewrite Ht1 in Hlive. destruct (HS Hlive) as (? & ? & ?).
      rewrite Hf1, He1, Hl1. auto. }
    split; [by right|]. split.
    { intros Hmid i [c Hi]. rewrite <- Ht1, Hmid in Hi. by rewrite lookup_empty in Hi. }
    split; [by rewrite Hc1|]. split; [done|]. split; [done|].
    split; [lia|lia].
Qed.

Lemma unmount_timers (w : World) :
  Inv w →
  Inv (unmount w) ∧ timers (unmount w) = ∅
  ∧ cleared w ⊆ cleared (unmount w)
  ∧ nextTimer (unmount w) = nextTimer w
  ∧ lifecycle (unmount w) = Unmounted.
Proof.
  intros HI. unfold unmount, teardownCleanup.
  destruct (pollingEffectCleanup_cancels w HI) as (HI2 & Ht2 & _).
  pose proof (pollingEffectCleanup_cleared w) as Hc2.
  pose proof (pollingEffectCleanup_nextTimer w) as Hn2.
  set (w2 := pollingEffectCleanup w) in *.
  pose proof (Inv_stopPolling (teardownSees w2) w2 HI2 (inv_teardownSees w2 HI2)) as HI3.
  pose proof (stopPolling_timers (teardownSees w2) w2 Ht2) as Ht3.
  pose proof (stopPolling_cleared (teardownSees w2) w2) as Hc3.
  pose proof (stopPolling_nextTimer (teardownSees w2) w2) as Hn3.
  split; [by apply Inv_setLifecycle|]. cbn.
  split; [done|]. split; [by etrans|]. split; [congruence | done].
Qed.

Lemma act_timers (a : Action) (w : World) :
  Inv w → Settled w →
  Inv (act a w) ∧ Settled (act a w)
  ∧ cleared w ⊆ cleared (act a w)
  ∧ nextTimer w ≤ nextTimer (act a w) ≤ S (nextTimer w)
  ∧ (nextTimer w < nextTimer (act a w) →
     ∀ i, is_Some (timers w !! i) →
          i ∈ cleared (act a w) ∧ timers (act a w) !! i = None).
Proof.
  intros HI HS.
  assert (Hstay : Inv w ∧ Settled w ∧ cleared w ⊆ cleared w
                  ∧ nextTimer w ≤ nextTimer w ≤ S (nextTimer w)
                  ∧ (nextTimer w < nextTimer w →
                     ∀ i, is_Some (timers w !! i) →
                          i ∈ cleared w ∧ timers w !! i = None)).
  { split; [done|]. split; [done|]. split; [done|]. split; [lia|]. lia. }
  assert (Hcommit : ∀ filter enabled fetchRebuilt,
            let w' := commit filter enabled fetchRebuilt w in
            Inv w' ∧ Settled w' ∧ cleared w ⊆ cleared w'
            ∧ nextTimer w ≤ nextTimer w' ≤ S (nextTimer w)
            ∧ (nextTimer w < nextTimer w' →
               ∀ i, is_Some (timers w !! i) →
                    i ∈ cleared w' ∧ timers w' !! i = None)).
  { intros filter enabled fetchRebuilt.
    destruct (commit_timers filter enabled fetchRebuilt w HI HS)
      as (_ & HI' & HS' & _ & Hcl & Hc1 & Hc2 & _ & Hn & Hnew).
    cbv zeta in *.
    split; [done|]. split; [done|]. split; [by etrans|]. split; [done|].
    intros Hlt i Hi.
    assert (Hin : i ∈ cleared (commit filter enabled fetchRebuilt w)).
    { apply Hc2, Hcl; auto. }
    split; [done|]. by apply (inv_cleared _ HI'). }
  unfold act. destruct (lifecycle w) eqn:Hl, a as [filter enabled fetchRebuilt|];
    try done; try apply Hcommit.
  destruct (unmount_timers w HI) as (HI' & Ht' & Hc' & Hn' & Hl').
  split; [done|]. split; [by intros []|]. split; [done|]. split; [lia|]. lia.
Qed.

Lemma exec_snoc (history : list Action) (a : Action) :
  exec (history ++ [a]) = act a (exec history).
Proof. unfold exec. by rewrite foldl_app. Qed.

Lemma exec_invariant (history : list Action) :
  Inv (exec history) ∧ Settled (exec history).
Proof.
  induction history as [|a history [HI HS]] using rev_ind.
  - split; [apply Inv_initial | by intros []].
  - rewrite exec_snoc. destruct (act_timers a (exec history) HI HS) as (? & ? & _). auto.
Qed.

Lemma exec_cleared_grows (history more : list Action) :
  cleared (exec history) ⊆ cleared (exec (history ++ more)).
Proof.
  induction more as [|a more IH] using rev_ind.
  - by rewrite app_nil_r.
  - rewrite app_assoc, exec_snoc.
    destruct (exec_invariant (history ++ more)) as [HI HS].
    destruct (act_timers a _ HI HS) as (_ & _ & Hc & _). by etrans.
Qed.

(** C6: after any history of renders and teardown, at most one polling
    timer is live, also half-way through a commit; a commit that starts a
    timer has first cancelled every timer that was live, so timers never
    stack; once the page is not in strong-match mode with notifications
    enabled, or is unmounted, no timer is live and no tick runs the
    pipeline; and a timer that was cancelled never runs the pipeline again,
    whatever happens later. *)
Theorem single_polling_timer (history : list Action) :
  size (timers (exec history)) ≤ 1
  ∧ (∀ filter enabled fetchRebuilt,
       size (timers (midCommit filter enabled fetchRebuilt (exec history))) ≤ 1)
  ∧ (∀ filter enabled fetchRebuilt,
       nextTimer (exec history)
         < nextTimer (commit filter enabled fetchRebuilt (exec history)) →
       timers (midCommit filter enabled fetchRebuilt (exec history)) = ∅)
  ∧ (∀ a i,
       nextTimer (exec history) < nextTimer (exec (history ++ [a])) →
       is_Some (timers (exec history) !! i) →
       i ∈ cleared (exec (history ++ [a]))
       ∧ timers (exec (history ++ [a])) !! i = None)
  ∧ (¬ (relevanceFilter (exec history) = "strong"
        ∧ notificationsEnabled (exec history) = true
        ∧ lifecycle (exec history) = Mounted) →
     timers (exec history) = ∅
     ∧ ∀ i, tickRunsPipeline i (exec history) = false)
  ∧ (∀ i more,
       i ∈ cleared (exec history) →
       tickRunsPipeline i (exec (history ++ more)) = false).
Proof.
  destruct (exec_invariant history) as [HI HS].
  split; [by apply Inv_single|]. split; [|split; [|split; [|split]]].
  - intros filter enabled fetchRebuilt.
    destruct (commit_timers filter enabled fetchRebuilt _ HI HS) as (Hmid & _).
    by apply Inv_single.
  - intros filter enabled fetchRebuilt Hlt.
    destruct (commit_timers filter enabled fetchRebuilt _ HI HS)
      as (_ & _ & _ & _ & _ & _ & _ & _ & _ & Hnew).
    by apply Hnew.
  - intros a i. rewrite exec_snoc.
    destruct (act_timers a _ HI HS) as (_ & _ & _ & _ & Hnew).
    intros Hlt. by apply Hnew.
  - intros Hidle.
    assert (Hempty : timers (exec history) = ∅).
    { destruct (decide (timers (exec history) = ∅)) as [|Hlive]; [done|].
      destruct Hidle. by apply HS. }
    split; [done|]. intros i. unfold tickRunsPipeline.
    by rewrite Hempty, lookup_empty.
  - intros i more Hi.
    destruct (exec_invariant (history ++ more)) as [HI' _].
    apply Inv_tick_cleared; [done|]. by apply exec_cleared_grows.
Qed.

(** The page mounts in strong-match mode with notifications enabled, and
    is rendered once more: the second commit replaces timer 1 by timer 2. *)
Example restart_replaces_the_timer :
  timers (exec [Commit "strong" true false; Commit "strong" true false])
  = {[ 2 := mkClosure "strong" true ]}
  ∧ cleared (exec [Commit "strong" true false; Commit "strong" true false]) = {[ 1 ]}.
Proof. vm_compute. auto. Qed.

(** Leaving strong-match mode, disabling notifications and unmounting each
    leave no timer behind. *)
Example every_way_to_idle :
  timers (exec [Commit "strong" true false; Commit "all" true false]) = ∅
  ∧ timers (exec [Commit "strong" true false; Commit "strong" false false]) = ∅
  ∧ timers (exec [Commit "strong" true false; Unmount]) = ∅
  ∧ tickRunsPipeline 1 (exec [Commit "strong" true false]) = true
  ∧ tickRunsPipeline 1 (exec [Commit "strong" true false; Unmount]) = false.
Proof. vm_compute. auto 6. Qed.

End SchedulerInvariant.

(** * Further properties of the page *)

(** ** Analytics *)

Lemma countStatus_cons (P : string → bool) (job : Job) (jobsData : list Job) :
  countStatus P (job :: jobsData)
  = (if P (status job) then 1 else 0) + countStatus P jobsData.
Proof. unfold countStatus. cbn. by destruct (P (status job)). Qed.

Lemma elem_of_knownStatuses (s : string) :
  s ∈ knownStatuses
  ↔ s = "active" ∨ s = "available" ∨ s = "completed" ∨ s = "submitted" ∨ s = "in-progress".
Proof.
  unfold knownStatuses. rewrite !elem_of_cons, elem_of_nil. tauto.
Qed.

(** X1: the three status counters of the analytics cards count disjoint
    groups of jobs: together with the jobs of any other status they add up
    to the total, so their sum never exceeds it; an empty list gives zeros. *)
Theorem analytics_partition (jobsData : list Job) :
  active (calculateAnalytics jobsData) + completed (calculateAnalytics jobsData)
    + pending (calculateAnalytics jobsData)
    + length (filter (λ job, status job ∉ knownStatuses) jobsData)
  = total (calculateAnalytics jobsData)
  ∧ active (calculateAnalytics jobsData) + completed (calculateAnalytics jobsData)
      + pending (calculateAnalytics jobsData)
    ≤ total (calculateAnalytics jobsData)
  ∧ calculateAnalytics [] = mkAnalytics 0 0 0 0.
Proof.
  assert (Hsum : active (calculateAnalytics jobsData) + completed (calculateAnalytics jobsData)
                   + pending (calculateAnalytics jobsData)
                   + length (filter (λ job, status job ∉ knownStatuses) jobsData)
                 = total (calculateAnalytics jobsData)).
  { cbn. induction jobsData as [|job jobsData IH]; [done|].
    rewrite !countStatus_cons. cbn [length]. rewrite <- IH. clear IH.
    destruct (decide (status job = "active")) as [Ha|Ha];
      [|destruct (decide (status job = "available")) as [Hv|Hv];
        [|destruct (decide (status job = "completed")) as [Hc|Hc];
          [|destruct (decide (status job = "submitted")) as [Hs|Hs];
            [|destruct (decide (status job = "in-progress")) as [Hp|Hp]]]]].
    - rewrite filter_cons_False by (rewrite elem_of_knownStatuses; tauto). rewrite Ha.
      repeat case_bool_decide; try done; cbn; lia.
    - rewrite filter_cons_False by (rewrite elem_of_knownStatuses; tauto). rewrite Hv.
      repeat case_bool_decide; try done; cbn; lia.
    - rewrite filter_cons_False by (rewrite elem_of_knownStatuses; tauto). rewrite Hc.
      repeat case_bool_decide; try done; cbn; lia.
    - rewrite filter_cons_False by (rewrite elem_of_knownStatuses; tauto). rewrite Hs.
      repeat case_bool_decide; try done; cbn; lia.
    - rewrite filter_cons_False by (rewrite elem_of_knownStatuses; tauto). rewrite Hp.
      repeat case_bool_decide; try done; cbn; lia.
    - rewrite filter_cons_True by (rewrite elem_of_knownStatuses; tauto).
      rewrite !bool_decide_eq_false_2 by done. cbn. lia. }
  split; [done|]. split; [lia | done].
Qed.

(** ** What a fetch does to the rest of the state *)

Local Ltac open_fetch :=
  unfold fetchJobsByRelevance, fetchJobsByRelevance_try, fetchJobsData,
    commitFetched, fallBackToSample, processNotifications, silent.

Local Ltac split_notifications st :=
  repeat match goal with
         | |- context [if notificationsEnabled st then _ else _] =>
             destruct (notificationsEnabled st) eqn:?; cbn -[notifyEach]
         | |- context [if isInitialRelevantJobsLoad st then _ else _] =>
             destruct (isInitialRelevantJobsLoad st) eqn:?; cbn -[notifyEach]
         | |- context [match newStrongMatchJobs ?p ?d with _ => _ end] =>
             destruct (newStrongMatchJobs p d) eqn:?; cbn -[notifyEach]
         | |- context [notifyEach ?e ?l] =>
             destruct (notifyEach e l) as [[? ?] []] eqn:?; cbn -[notifyEach]
         end.

Local Ltac split_fetch relevance resp st :=
  destruct (bool_decide (relevance = "all")) eqn:?,
    (bool_decide (relevance = "strong")) eqn:?, resp as [?data| |];
  cbn -[notifyEach];
  split_notifications st.

(** X2: after every foreground fetch, be it successful or failed, through
    either fetch function, the analytics are those of the feed list shown;
    after a successful background poll whose notification block ran to its
    end they are those of the polled snapshot, whatever the merged list
    holds. *)
Theorem analytics_follow_fetch (env : Platform) (now : Z) (relevance : string)
    (resp : Response) (snapshot : list Job) (st : State) :
  analytics (next (fetchJobsByRelevance env now relevance false resp st))
  = calculateAnalytics (jobs (next (fetchJobsByRelevance env now relevance false resp st)))
  ∧ analytics (next (fetchJobsData now resp st))
    = calculateAnalytics (jobs (next (fetchJobsData now resp st)))
  ∧ (runsThrough env st snapshot →
     analytics (next (fetchJobsByRelevance env now "strong" true (Ok snapshot) st))
     = calculateAnalytics snapshot).
Proof.
  split; [|split].
  - open_fetch. split_fetch relevance resp st; reflexivity.
  - open_fetch. destruct resp; reflexivity.
  - intros Hruns. rewrite fetch_strong_ok by done. reflexivity.
Qed.

(** X3: a foreground fetch always ends with the loading indicator cleared;
    it stamps the refresh time exactly when it succeeded and, in
    strong-match mode, its notification block ran to its end; a background
    poll never touches the loading indicator, the refresh time, the
    relevance filter or the enabled flag, whatever it is asked and whatever
    comes back. *)
Theorem loading_and_refresh_time (env : Platform) (now : Z) (relevance : string)
    (resp : Response) (st : State) :
  loading (next (fetchJobsByRelevance env now relevance false resp st)) = false
  ∧ loading (next (fetchJobsData now resp st)) = false
  ∧ lastRefreshTime (next (fetchJobsData now resp st))
    = (if isFailure resp then lastRefreshTime st else now)
  ∧ lastRefreshTime (next (fetchJobsByRelevance env now "all" false resp st))
    = (if isFailure resp then lastRefreshTime st else now)
  ∧ ((∀ data, resp = Ok data → runsThrough env st data) →
     lastRefreshTime (next (fetchJobsByRelevance env now "strong" false resp st))
     = (if isFailure resp then lastRefreshTime st else now))
  ∧ loading (next (fetchJobsByRelevance env now relevance true resp st)) = loading st
  ∧ lastRefreshTime (next (fetchJobsByRelevance env now relevance true resp st))
    = lastRefreshTime st
  ∧ relevanceFilter (next (fetchJobsByRelevance env now relevance true resp st))
    = relevanceFilter st
  ∧ notificationsEnabled (next (fetchJobsByRelevance env now relevance true resp st))
    = notificationsEnabled st.
Proof.
  split; [open_fetch; split_fetch relevance resp st; reflexivity|].
  split; [open_fetch; destruct resp; reflexivity|].
  split; [open_fetch; destruct resp; reflexivity|].
  split; [open_fetch; destruct resp; reflexivity|].
  split.
  { intros Hruns. destruct resp as [data| |];
      [|open_fetch; reflexivity..].
    rewrite fetch_strong_ok by (by apply Hruns). reflexivity. }
  repeat split; open_fetch; split_fetch relevance resp st;
    first [reflexivity | congruence].
Qed.

(** X4: a fetch of the whole list, through [fetchJobsData] or through
    [fetchJobsByRelevance('all')], announces no job and leaves the stored id
    set, the baseline flag, the enabled flag and the stored preference as
    they were, whether it succeeds or fails. *)
Theorem whole_list_fetch_keeps_baseline (env : Platform) (now : Z) (isPolling : bool)
    (resp : Response) (st : State) :
  (notified (fetchJobsData now resp st) = []
   ∧ Forall (λ e, isNewJobAlert e = false) (effects (fetchJobsData now resp st))
   ∧ previousStrongMatchJobIds (next (fetchJobsData now resp st))
     = previousStrongMatchJobIds st
   ∧ isInitialRelevantJobsLoad (next (fetchJobsData now resp st))
     = isInitialRelevantJobsLoad st
   ∧ notificationsEnabled (next (fetchJobsData now resp st)) = notificationsEnabled st
   ∧ storedPreference (next (fetchJobsData now resp st)) = storedPreference st)
  ∧ (notified (fetchJobsByRelevance env now "all" isPolling resp st) = []
     ∧ Forall (λ e, isNewJobAlert e = false)
         (effects (fetchJobsByRelevance env now "all" isPolling resp st))
     ∧ previousStrongMatchJobIds (next (fetchJobsByRelevance env now "all" isPolling resp st))
       = previousStrongMatchJobIds st
     ∧ isInitialRelevantJobsLoad (next (fetchJobsByRelevance env now "all" isPolling resp st))
       = isInitialRelevantJobsLoad st
     ∧ notificationsEnabled (next (fetchJobsByRelevance env now "all" isPolling resp st))
       = notificationsEnabled st
     ∧ storedPreference (next (fetchJobsByRelevance env now "all" isPolling resp st))
       = storedPreference st).
Proof.
  split.
  - open_fetch. destruct resp; cbn; repeat split; repeat constructor.
  - open_fetch. destruct isPolling, resp; cbn; repeat split; repeat constructor.
Qed.

(** ** Announcements *)

(** X5: the effects of a successful strong-match fetch whose notification
    block ran to its end are determined by the jobs it announces: none when
    it announces none, otherwise what [showNotification] showed for each
    announced job, in snapshot order, followed by one summary toast carrying
    their number; every announced job is an item of the snapshot with an id
    whose key was not in the stored id set. *)
Theorem announcements_shape (env : Platform) (now : Z) (isPolling : bool)
    (snapshot : list Job) (st : State) :
  runsThrough env st snapshot →
  effects (fetchJobsByRelevance env now "strong" isPolling (Ok snapshot) st)
  = match notified (fetchJobsByRelevance env now "strong" isPolling (Ok snapshot) st) with
    | [] => []
    | _ :: _ =>
        flat_map (announcement env)
          (notified (fetchJobsByRelevance env now "strong" isPolling (Ok snapshot) st))
        ++ [Toast (NewStrongMatchJobsFound
                     (length (notified (fetchJobsByRelevance env now "strong" isPolling
                                          (Ok snapshot) st))))]
    end
  ∧ Forall (λ job, job ∈ snapshot ∧ not_nullish (id job) = true
                   ∧ jobKey job ∉ previousStrongMatchJobIds st)
      (notified (fetchJobsByRelevance env now "strong" isPolling (Ok snapshot) st)).
Proof.
  intros Hruns.
  destruct (fetch_strong_ok_notified env now isPolling snapshot st Hruns) as [-> ->].
  destruct (setLoading_if_refs (negb isPolling) true st) as (Hp & Hi & He & _).
  cbv zeta in *.
  set (st0 := if negb isPolling then setLoading true st else st) in *.
  unfold completedNotifications. rewrite Hi, He, Hp.
  destruct (notificationsEnabled st); [|by split].
  destruct (isInitialRelevantJobsLoad st); [by split|].
  destruct (newStrongMatchJobs (previousStrongMatchJobIds st) snapshot) as [|job fresh] eqn:Hnew;
    [by split|].
  split; [done|]. cbn [notified]. rewrite <- Hnew.
  apply Forall_forall. intros j Hj. unfold newStrongMatchJobs in Hj.
  apply list_elem_of_filter in Hj as [Hkey Hj].
  apply elem_of_validJobs in Hj as [Hin Hid]. auto.
Qed.

Lemma announcements_shape_witness :
  runsThrough chrome (next scenarioA) [item "1"; item "2"; item "3"]
  ∧ effects scenarioB
    = match notified scenarioB with
      | [] => []
      | _ :: _ =>
          flat_map (announcement chrome) (notified scenarioB)
          ++ [Toast (NewStrongMatchJobsFound (length (notified scenarioB)))]
      end
  ∧ Forall (λ job, job ∈ [item "1"; item "2"; item "3"] ∧ not_nullish (id job) = true
                   ∧ jobKey job ∉ previousStrongMatchJobIds (next scenarioA))
      (notified scenarioB).
Proof.
  assert (Hruns : runsThrough chrome (next scenarioA) [item "1"; item "2"; item "3"]).
  { apply safe_runsThrough. intros _. repeat constructor; eexists; reflexivity. }
  split; [exact Hruns|].
  exact (announcements_shape chrome 2 true [item "1"; item "2"; item "3"]
           (next scenarioA) Hruns).
Defined.

Lemma newStrongMatchJobs_seen (snapshot : list Job) :
  newStrongMatchJobs (idSet snapshot) snapshot = [].
Proof.
  unfold newStrongMatchJobs. apply filter_none.
  intros job [Hin _]%elem_of_validJobs Hnew. apply Hnew.
  apply elem_of_idSet. by exists job.
Qed.

(** X6: a snapshot fetched twice in a row announces nothing the second
    time, provided the notification block of the first fetch ran to its end,
    whatever the state before, the platform, and whether either fetch is a
    poll: no job is announced twice for one appearance. *)
Theorem same_snapshot_is_silent (env1 env2 : Platform) (now1 now2 : Z)
    (poll1 poll2 : bool) (snapshot : list Job) (st : State) :
  runsThrough env1 st snapshot →
  notified (fetchJobsByRelevance env2 now2 "strong" poll2 (Ok snapshot)
              (next (fetchJobsByRelevance env1 now1 "strong" poll1 (Ok snapshot) st))) = []
  ∧ effects (fetchJobsByRelevance env2 now2 "strong" poll2 (Ok snapshot)
               (next (fetchJobsByRelevance env1 now1 "strong" poll1 (Ok snapshot) st))) = [].
Proof.
  intros Hruns.
  destruct (fetch_strong_ok_refs env1 now1 poll1 snapshot st Hruns) as (Hp & Hi & He).
  cbv zeta in *.
  set (st1 := next (fetchJobsByRelevance env1 now1 "strong" poll1 (Ok snapshot) st)) in *.
  assert (Hruns1 : runsThrough env2 st1 snapshot).
  { right. right. rewrite Hp, newStrongMatchJobs_seen. intros _. constructor. }
  destruct (fetch_strong_ok_notified env2 now2 poll2 snapshot st1 Hruns1) as [-> ->].
  destruct (setLoading_if_refs (negb poll2) true st1) as (Hp0 & Hi0 & He0 & _).
  cbv zeta in *.
  unfold completedNotifications. rewrite Hi0, He0, Hp0, Hp, newStrongMatchJobs_seen.
  by destruct (notificationsEnabled st1), (isInitialRelevantJobsLoad st1).
Qed.

Lemma same_snapshot_is_silent_witness :
  runsThrough chrome (next scenarioA) [item "1"; item "2"; item "3"]
  ∧ notified (fetchJobsByRelevance chrome 3 "strong" true
                (Ok [item "1"; item "2"; item "3"]) (next scenarioB)) = []
  ∧ effects (fetchJobsByRelevance chrome 3 "strong" true
               (Ok [item "1"; item "2"; item "3"]) (next scenarioB)) = [].
Proof.
  assert (Hruns : runsThrough chrome (next scenarioA) [item "1"; item "2"; item "3"]).
  { apply safe_runsThrough. intros _. repeat constructor; eexists; reflexivity. }
  split; [exact Hruns|].
  exact (same_snapshot_is_silent chrome chrome 2 3 true true
           [item "1"; item "2"; item "3"] (next scenarioA) Hruns).
Defined.

(** ** A new job without a title *)

Lemma notifyEach_stops (env : Platform) (before : list Job) (job : Job) (after : list Job) :
  permission env = granted →
  Forall titled before →
  title job = None →
  notifyEach env (before ++ job :: after)
  = (before, flat_map (announcement env) before, true).
Proof.
  intros Hg Hbefore Hjob.
  induction Hbefore as [|j before Hj _ IH]; cbn [app notifyEach flat_map].
  - unfold notifyJob. rewrite Hjob. by rewrite decide_True.
  - rewrite notifyJob_safe by done. by rewrite IH.
Qed.

Lemma processNotifications_stops (env : Platform) (snapshot : list Job) (st : State)
    (before : list Job) (job : Job) (after : list Job) :
  notificationsEnabled st = true →
  isInitialRelevantJobsLoad st = false →
  permission env = granted →
  newStrongMatchJobs (previousStrongMatchJobIds st) snapshot = before ++ job :: after →
  Forall titled before →
  title job = None →
  processNotifications env snapshot st
  = Thrown (mkOutcome st before (flat_map (announcement env) before)).
Proof.
  intros He Hi Hg Hnew Hbefore Hjob. unfold processNotifications.
  rewrite He, Hi. cbv zeta. rewrite Hnew.
  rewrite notifyEach_stops by done.
  by destruct before.
Qed.

(** X24: a strong-match fetch that has to announce a job without a title
    while the permission is granted stops at that job.  The new jobs ahead
    of it have been announced, the job itself and those after it are not,
    and no summary toast is shown; the stored id set, the baseline flag and
    the refresh time stay as they were.  A background poll leaves the whole
    state as it was; a foreground fetch replaces the feed list by the sample
    jobs, raises the api-error flag, shows the "API Unavailable" warning and
    clears the loading indicator, although the server answered. *)
Theorem untitled_job_cuts_fetch_short (env : Platform) (now : Z) (isPolling : bool)
    (snapshot : list Job) (st : State) (before : list Job) (job : Job) (after : list Job) :
  notificationsEnabled st = true →
  isInitialRelevantJobsLoad st = false →
  permission env = granted →
  newStrongMatchJobs (previousStrongMatchJobIds st) snapshot = before ++ job :: after →
  Forall titled before →
  title job = None →
  let o := fetchJobsByRelevance env now "strong" isPolling (Ok snapshot) st in
  notified o = before
  ∧ effects o
    = flat_map (announcement env) before ++ (if isPolling then [] else [Toast ApiUnavailable])
  ∧ previousStrongMatchJobIds (next o) = previousStrongMatchJobIds st
  ∧ isInitialRelevantJobsLoad (next o) = false
  ∧ lastRefreshTime (next o) = lastRefreshTime st
  ∧ (isPolling = true → next o = st)
  ∧ (isPolling = false →
     jobs (next o) = sampleJobs
     ∧ analytics (next o) = calculateAnalytics sampleJobs
     ∧ apiError (next o) = true
     ∧ loading (next o) = false).
Proof.
  intros He Hi Hg Hnew Hbefore Hjob o. subst o.
  rewrite (fetch_strong_thrown env now isPolling snapshot st
             (mkOutcome (if negb isPolling then setLoading true st else st)
                before (flat_map (announcement env) before))).
  - destruct isPolling; cbn; rewrite ?app_nil_r; repeat split; auto; discriminate.
  - apply processNotifications_stops with (job := job) (after := after);
      by destruct isPolling.
Qed.

Lemma untitled_job_cuts_fetch_short_witness :
  notificationsEnabled (next scenarioA) = true
  ∧ isInitialRelevantJobsLoad (next scenarioA) = false
  ∧ permission chrome = granted
  ∧ newStrongMatchJobs (previousStrongMatchJobIds (next scenarioA))
      [item "1"; item "2"; item "3"; untitled "4"; item "5"]
    = [item "3"] ++ untitled "4" :: [item "5"]
  ∧ Forall titled [item "3"]
  ∧ title (untitled "4") = None
  ∧ let o := fetchJobsByRelevance chrome 2 "strong" true
               (Ok [item "1"; item "2"; item "3"; untitled "4"; item "5"]) (next scenarioA) in
    notified o = [item "3"]
    ∧ effects o = flat_map (announcement chrome) [item "3"] ++ []
    ∧ previousStrongMatchJobIds (next o) = previousStrongMatchJobIds (next scenarioA)
    ∧ isInitialRelevantJobsLoad (next o) = false
    ∧ lastRefreshTime (next o) = lastRefreshTime (next scenarioA)
    ∧ (true = true → next o = next scenarioA)
    ∧ (true = false →
       jobs (next o) = sampleJobs
       ∧ analytics (next o) = calculateAnalytics sampleJobs
       ∧ apiError (next o) = true
       ∧ loading (next o) = false).
Proof.
  assert (Hnew : newStrongMatchJobs (previousStrongMatchJobIds (next scenarioA))
                   [item "1"; item "2"; item "3"; untitled "4"; item "5"]
                 = [item "3"] ++ untitled "4" :: [item "5"])
    by (vm_compute; reflexivity).
  assert (Hbefore : Forall titled [item "3"])
    by (repeat constructor; eexists; reflexivity).
  split; [reflexivity|]. split; [reflexivity|]. split; [reflexivity|].
  split; [exact Hnew|]. split; [exact Hbefore|]. split; [reflexivity|].
  exact (untitled_job_cuts_fetch_short chrome 2 true
           [item "1"; item "2"; item "3"; untitled "4"; item "5"] (next scenarioA)
           [item "3"] (untitled "4") [item "5"]
           eq_refl eq_refl eq_refl Hnew Hbefore eq_refl).
Defined.

(** The same snapshot on a manual refresh: the server answered, the page
    shows the sample jobs and the warning. *)
Example untitled_job_on_refresh :
  jobs (next (fetchJobsByRelevance chrome 2 "strong" false
                (Ok [item "1"; item "2"; item "3"; untitled "4"; item "5"]) (next scenarioA)))
  = sampleJobs
  ∧ effects (fetchJobsByRelevance chrome 2 "strong" false
               (Ok [item "1"; item "2"; item "3"; untitled "4"; item "5"]) (next scenarioA))
    = [ NativeNotification (notificationBody "Job 3" "No description available");
        Toast (NewStrongMatchJob "Job 3");
        Toast ApiUnavailable ].
Proof. vm_compute. auto. Qed.

(** Without the permission the job without a title is announced by a toast
    that has no description, and the fetch runs to its end. *)
Example untitled_job_without_permission :
  effects (fetchJobsByRelevance (mkPlatform denied false) 2 "strong" true
             (Ok [item "1"; item "2"; untitled "4"]) (next scenarioA))
  = [ Toast NewStrongMatchJobUntitled; Toast (NewStrongMatchJobsFound 1) ]
  ∧ previousStrongMatchJobIds
      (next (fetchJobsByRelevance (mkPlatform denied false) 2 "strong" true
               (Ok [item "1"; item "2"; untitled "4"]) (next scenarioA)))
    = {["1"; "2"; "4"]}.
Proof. vm_compute. auto. Qed.

(** X25: the notification block of a strong-match fetch throws exactly when
    notifications are enabled, the baseline flag is cleared, the permission
    is granted and one of the jobs it has to announce has no title;
    otherwise it runs to its end. *)
Theorem notification_block_throws_iff (env : Platform) (snapshot : list Job) (st : State) :
  ((∃ o, processNotifications env snapshot st = Thrown o)
   ↔ notificationsEnabled st = true
     ∧ isInitialRelevantJobsLoad st = false
     ∧ permission env = granted
     ∧ Exists (λ job, title job = None)
         (newStrongMatchJobs (previousStrongMatchJobIds st) snapshot))
  ∧ ((∃ o, processNotifications env snapshot st = Returned o)
     ↔ runsThrough env st snapshot).
Proof.
  assert (Hthrows : notificationsEnabled st = true
                    ∧ isInitialRelevantJobsLoad st = false
                    ∧ permission env = granted
                    ∧ Exists (λ job, title job = None)
                        (newStrongMatchJobs (previousStrongMatchJobIds st) snapshot)
                    ↔ ¬ runsThrough env st snapshot).
  { unfold runsThrough, safeToAnnounce. split.
    - intros (He & Hi & Hg & Hex) [Hd | [Hb | Hsafe]]; [congruence..|].
      apply Exists_exists in Hex as (job & Hin & Hnone).
      specialize (Hsafe Hg). rewrite Forall_forall in Hsafe.
      destruct (Hsafe job Hin) as [jobTitle HjobTitle]. congruence.
    - intros Hnot.
      destruct (notificationsEnabled st); [|by destruct Hnot; left].
      destruct (isInitialRelevantJobsLoad st); [by destruct Hnot; right; left|].
      destruct (decide (permission env = granted)) as [Hg|Hg];
        [|by destruct Hnot; right; right].
      do 3 (split; [done|]).
      assert (Hex : Exists (not ∘ titled)
                      (newStrongMatchJobs (previousStrongMatchJobIds st) snapshot)).
      { apply not_Forall_Exists; [intros job; unfold titled; apply _|].
        intros Hall. apply Hnot. right. right. by intros _. }
      eapply Exists_impl; [exact Hex|]. intros job Hjob.
      cbn in Hjob. unfold titled in Hjob.
      destruct (title job); [destruct Hjob; eauto | done]. }
  split.
  - rewrite Hthrows. split.
    + intros [o Ho] Hruns. apply processNotifications_completes in Hruns. congruence.
    + intros Hnot. apply Hthrows in Hnot as (He & Hi & Hg & Hex).
      apply Exists_exists in Hex as (job & Hin & Hnone).
      assert (Hsplit : ∃ before after j,
                newStrongMatchJobs (previousStrongMatchJobIds st) snapshot
                = before ++ j :: after
                ∧ Forall titled before ∧ title j = None).
      { clear - Hin Hnone.
        induction (newStrongMatchJobs (previousStrongMatchJobIds st) snapshot)
          as [|j l IH]; [by apply elem_of_nil in Hin|].
        destruct (title j) as [jobTitle|] eqn:Hj.
        - apply elem_of_cons in Hin as [-> | Hin]; [congruence|].
          destruct (IH Hin) as (before & after & j' & -> & Hbefore & Hj').
          exists (j :: before), after, j'. split; [done|]. split; [|done].
          constructor; [by eexists | done].
        - exists [], l, j. by repeat split. }
      destruct Hsplit as (before & after & j & Hnew & Hbefore & Hj).
      eexists. by eapply processNotifications_stops.
  - split.
    + intros [o Ho].
      destruct (decide (notificationsEnabled st = true
                        ∧ isInitialRelevantJobsLoad st = false
                        ∧ permission env = granted
                        ∧ Exists (λ job, title job = None)
                            (newStrongMatchJobs (previousStrongMatchJobIds st) snapshot)))
        as [Hyes|Hno].
      * exfalso. destruct Hyes as (He & Hi & Hg & Hex).
        apply Exists_exists in Hex as (job & Hin & Hnone).
        unfold processNotifications in Ho. rewrite He, Hi in Ho. cbv zeta in Ho.
        assert (Hthrew : (notifyEach env
                            (newStrongMatchJobs (previousStrongMatchJobIds st) snapshot)).2
                         = true).
        { clear - Hin Hnone Hg.
          induction (newStrongMatchJobs (previousStrongMatchJobIds st) snapshot)
            as [|j l IH]; [by apply elem_of_nil in Hin|].
          cbn [notifyEach]. unfold notifyJob at 1.
          destruct (title j) as [jobTitle|] eqn:Hj.
          - apply elem_of_cons in Hin as [-> | Hin]; [congruence|].
            specialize (IH Hin).
            destruct (notifyEach env l) as [[announced more] threw]. cbn in *. done.
          - by rewrite decide_True. }
        destruct (newStrongMatchJobs (previousStrongMatchJobIds st) snapshot)
          as [|j l]; [by apply elem_of_nil in Hin|].
        destruct (notifyEach env (j :: l)) as [[announced shown] threw].
        cbn in Hthrew. by rewrite Hthrew in Ho.
      * destruct (notificationsEnabled st) eqn:He; [|by left].
        destruct (isInitialRelevantJobsLoad st) eqn:Hi; [by right; left|].
        right. right. intros Hg.
        apply Forall_forall. intros job Hin. unfold titled.
        destruct (title job) eqn:Hj; [by eexists|].
        exfalso. apply Hno. do 3 (split; [done|]).
        apply Exists_exists. eauto.
    + intros Hruns. eexists. by apply processNotifications_completes.
Qed.

(** X7: every call of [showNotification] shows exactly one in-app new-job
    toast, whatever the platform does; it shows one native alert when the
    permission is granted and the constructor works, and none otherwise;
    without the permission the toast carries the whole title, and a
    constructor failure is reported by an error toast ahead of it. *)
Theorem notification_channels (env : Platform) (jobTitle jobDescription : string) :
  (∃ shown, filter (λ e, isJobToast e = true) (showNotification env jobTitle jobDescription)
            = [Toast (NewStrongMatchJob shown)]
            ∧ (permission env ≠ granted → shown = jobTitle)
            ∧ (permission env = granted → shown = truncate 100 jobTitle))
  ∧ length (filter (λ e, isNativeAlert e = true)
              (showNotification env jobTitle jobDescription))
    = (if decide (permission env = granted ∧ constructorThrows env = false) then 1 else 0)
  ∧ (permission env ≠ granted →
     showNotification env jobTitle jobDescription = [Toast (NewStrongMatchJob jobTitle)])
  ∧ (permission env = granted → constructorThrows env = true →
     showNotification env jobTitle jobDescription
     = [Toast NotificationError; Toast (NewStrongMatchJob (truncate 100 jobTitle))]).
Proof.
  unfold showNotification.
  destruct (decide (permission env = granted)) as [Hg|Hg],
    (constructorThrows env) eqn:Hc; cbn.
  all: split; [first [by exists (truncate 100 jobTitle) | by exists jobTitle]|].
  all: split; [|by split].
  all: repeat case_decide; first [done | intuition congruence].
Qed.

(** ** The toggle and the stored preference *)

(** X8: a click on the toggle either leaves the whole state as it was
    (permission refused, or the request failed) or flips the enabled flag,
    stores it, empties the stored id set and sets the baseline flag, leaving
    the feed list alone; it turns notifications on only when the permission
    is granted, already or by the request. *)
Theorem toggle_outcomes (env : Platform) (req : RequestOutcome) (st : State) :
  (next (toggleNotifications env req st) = st
   ∧ notificationsEnabled st = false
   ∧ (effects (toggleNotifications env req st) = [Toast NotificationPermissionDenied]
      ∨ (req = Rejected ∧ effects (toggleNotifications env req st) = [])))
  ∨ (notificationsEnabled (next (toggleNotifications env req st))
       = negb (notificationsEnabled st)
     ∧ storedPreference (next (toggleNotifications env req st))
       = Some (if notificationsEnabled st then "false" else "true")
     ∧ previousStrongMatchJobIds (next (toggleNotifications env req st)) = ∅
     ∧ isInitialRelevantJobsLoad (next (toggleNotifications env req st)) = true
     ∧ jobs (next (toggleNotifications env req st)) = jobs st
     ∧ (notificationsEnabled st = false →
        permission env = granted ∨ req = Resolved granted)).
Proof.
  unfold toggleNotifications.
  destruct (notificationsEnabled st) eqn:He; cbn [negb].
  - right. cbn. rewrite ?He. by repeat split.
  - destruct (decide (permission env = granted)) as [Hg|Hg].
    + right. cbn. rewrite ?He. repeat split; auto.
    + destruct req as [[]|].
      * right. cbn. rewrite ?He. repeat split; auto.
      * left. cbn. auto.
      * left. cbn. auto.
      * left. cbn. auto.
Qed.

Lemma fetch_keeps_switches (env : Platform) (now : Z) (relevance : string)
    (isPolling : bool) (resp : Response) (st : State) :
  notificationsEnabled (next (fetchJobsByRelevance env now relevance isPolling resp st))
  = notificationsEnabled st
  ∧ storedPreference (next (fetchJobsByRelevance env now relevance isPolling resp st))
    = storedPreference st
  ∧ (isInitialRelevantJobsLoad st = false →
     isInitialRelevantJobsLoad (next (fetchJobsByRelevance env now relevance isPolling resp st))
     = false).
Proof.
  repeat split; try intros Hi; open_fetch; destruct isPolling;
    split_fetch relevance resp st; first [reflexivity | congruence].
Qed.

Lemma fetchJobsData_keeps_switches (now : Z) (resp : Response) (st : State) :
  notificationsEnabled (next (fetchJobsData now resp st)) = notificationsEnabled st
  ∧ storedPreference (next (fetchJobsData now resp st)) = storedPreference st
  ∧ isInitialRelevantJobsLoad (next (fetchJobsData now resp st))
    = isInitialRelevantJobsLoad st.
Proof. unfold fetchJobsData. by destruct resp. Qed.

Lemma cycle_keeps_switches (env : Platform) (c : Cycle) (st : State) :
  notificationsEnabled (next (cycle env c st)) = notificationsEnabled st
  ∧ storedPreference (next (cycle env c st)) = storedPreference st
  ∧ (isInitialRelevantJobsLoad st = false →
     isInitialRelevantJobsLoad (next (cycle env c st)) = false).
Proof.
  destruct c as [now resp | now resp | now v resp]; cbn.
  - unfold handleManualRefresh. case_bool_decide.
    + apply fetch_keeps_switches.
    + destruct (fetchJobsData_keeps_switches now resp st) as (-> & -> & ->). auto.
  - unfold pollTick. destruct (_ && _); [|by cbn].
    cbn [next notificationsEnabled storedPreference isInitialRelevantJobsLoad setNextPollTime].
    apply fetch_keeps_switches.
  - unfold selectRelevance. repeat case_bool_decide.
    + apply (fetch_keeps_switches env now "strong" false resp (setRelevanceFilter v st)).
    + destruct (fetchJobsData_keeps_switches now resp (setRelevanceFilter v st))
        as (-> & -> & ->). auto.
    + by cbn.
Qed.

(** X9: fetch cycles, however many and of whatever kind, never change the
    enabled flag or the stored preference, and never set the baseline flag
    again once it is cleared: only the toggle re-arms the baseline. *)
Theorem cycles_never_rearm (env : Platform) (cs : list Cycle) (st : State) :
  notificationsEnabled (next (runCycles env cs st)) = notificationsEnabled st
  ∧ storedPreference (next (runCycles env cs st)) = storedPreference st
  ∧ (isInitialRelevantJobsLoad st = false →
     isInitialRelevantJobsLoad (next (runCycles env cs st)) = false).
Proof.
  revert st. induction cs as [|c cs IH]; intros st; [by cbn|].
  cbn. destruct (cycle_keeps_switches env c st) as (He & Hs & Hi).
  destruct (IH (next (cycle env c st))) as (He' & Hs' & Hi').
  rewrite He', Hs', He, Hs. auto.
Qed.

Lemma toggle_switch (env : Platform) (req : RequestOutcome) (st : State) :
  next (toggleNotifications env req st) = st
  ∨ (notificationsEnabled (next (toggleNotifications env req st))
       = negb (notificationsEnabled st)
     ∧ storedPreference (next (toggleNotifications env req st))
       = Some (if notificationsEnabled st then "false" else "true")).
Proof.
  unfold toggleNotifications.
  destruct (notificationsEnabled st) eqn:He; cbn [negb].
  - right. cbn. by rewrite ?He.
  - destruct (decide (permission env = granted)); [right; cbn; by rewrite ?He|].
    destruct req as [[]|]; [right; cbn; by rewrite ?He|by left..].
Qed.

Lemma handle_preferenceInSync (env : Platform) (ev : UserEvent) (st : State) :
  preferenceInSync st → preferenceInSync (next (handle env ev st)).
Proof.
  unfold preferenceInSync. intros Hsync. destruct ev as [c | browser req]; cbn.
  - destruct (cycle_keeps_switches env c st) as (-> & -> & _). done.
  - destruct (toggle_switch browser req st) as [-> | (-> & ->)]; [done|].
    by destruct (notificationsEnabled st).
Qed.

(** X10: through any session of fetch cycles and toggles started from a
    mount, the stored preference keeps track of the enabled flag: a page
    mounted anew from the stored preference starts with the enabled flag
    the session ended with. *)
Theorem preference_survives_reload (env : Platform) (stored : option string)
    (start now : Z) (evs : list UserEvent) :
  notificationsEnabled
    (initialState (storedPreference (session env evs (initialState stored start))) now)
  = notificationsEnabled (session env evs (initialState stored start)).
Proof.
  assert (Hsync : preferenceInSync (session env evs (initialState stored start))).
  { unfold session. induction evs as [|ev evs IH] using rev_ind; [done|].
    rewrite foldl_app. cbn. by apply handle_preferenceInSync. }
  by rewrite Hsync.
Qed.

(** ** The feed list under background polls *)

Lemma idSet_app (l k : list Job) : idSet (l ++ k) = idSet l ∪ idSet k.
Proof. unfold idSet. by rewrite fmap_app, list_to_set_app_L. Qed.

(** X11: a background merge never drops or reorders what the feed list
    holds: the list grows by at most the size of the snapshot, its keys
    become the keys it had together with the keys of the snapshot, merging
    into an empty list gives the snapshot and merging an empty snapshot
    gives the list back. *)
Theorem merge_accumulates (prevJobs snapshot : list Job) :
  idSet (mergeJobs prevJobs snapshot) = idSet prevJobs ∪ idSet snapshot
  ∧ length prevJobs ≤ length (mergeJobs prevJobs snapshot)
  ∧ length (mergeJobs prevJobs snapshot) ≤ length prevJobs + length snapshot
  ∧ mergeJobs [] snapshot = snapshot
  ∧ mergeJobs prevJobs [] = prevJobs.
Proof.
  split; [|split; [|split; [|split]]].
  - rewrite mergeJobs_prepends, idSet_app, idSet_filter_difference.
    apply set_eq. intros k. rewrite !elem_of_union, elem_of_difference.
    destruct (decide (k ∈ idSet prevJobs)); tauto.
  - rewrite mergeJobs_prepends, length_app. lia.
  - rewrite mergeJobs_prepends, length_app.
    pose proof (length_filter (λ job, jobKey job ∉ idSet prevJobs) snapshot). lia.
  - rewrite mergeJobs_prepends, app_nil_r.
    induction snapshot as [|job snapshot IH]; [done|].
    rewrite filter_cons_True by (unfold idSet; cbn; apply not_elem_of_empty).
    by rewrite IH.
  - reflexivity.
Qed.

(** X12: when no two items of the feed list share a key and no two items
    of the snapshot do, no two items of the merged list share a key. *)
Theorem merge_keeps_keys_unique (prevJobs snapshot : list Job) :
  NoDup (jobKey <$> prevJobs) →
  NoDup (jobKey <$> snapshot) →
  NoDup (jobKey <$> mergeJobs prevJobs snapshot).
Proof.
  intros Hprev Hsnap. rewrite mergeJobs_prepends, fmap_app.
  apply NoDup_app. split; [|split; [|done]].
  - eapply sublist_NoDup; [exact Hsnap|]. apply fmap_sublist, sublist_filter.
  - intros k (job & -> & Hjob)%list_elem_of_fmap Hold.
    apply list_elem_of_filter in Hjob as [Hnew _]. apply Hnew.
    unfold idSet. by apply elem_of_list_to_set.
Qed.

Lemma merge_keeps_keys_unique_witness :
  NoDup (jobKey <$> [item "1"; item "2"])
  ∧ NoDup (jobKey <$> [item "2"; item "3"])
  ∧ NoDup (jobKey <$> mergeJobs [item "1"; item "2"] [item "2"; item "3"]).
Proof.
  assert (H1 : NoDup (jobKey <$> [item "1"; item "2"])).
  { apply (bool_decide_unpack _). vm_compute. exact I. }
  assert (H2 : NoDup (jobKey <$> [item "2"; item "3"])).
  { apply (bool_decide_unpack _). vm_compute. exact I. }
  split; [exact H1|]. split; [exact H2|].
  exact (merge_keeps_keys_unique [item "1"; item "2"] [item "2"; item "3"] H1 H2).
Defined.

(** A snapshot that lists one new id twice puts both copies in the feed. *)
Example merge_copies_repeated_new_items :
  mergeJobs [item "1"] [item "2"; item "2"] = [item "2"; item "2"; item "1"].
Proof. vm_compute. reflexivity. Qed.

(** X26: a successful background poll in strong-match mode whose
    notification block ran to its end leaves as feed list the merge of the
    polled snapshot into the previous list: the snapshot items with a key the
    list did not hold, ahead of the previous list. *)
Theorem poll_merges_feed (env : Platform) (now : Z) (snapshot : list Job) (st : State) :
  runsThrough env st snapshot →
  jobs (next (fetchJobsByRelevance env now "strong" true (Ok snapshot) st))
  = mergeJobs (jobs st) snapshot
  ∧ jobs (next (fetchJobsByRelevance env now "strong" true (Ok snapshot) st))
    = filter (λ job, jobKey job ∉ idSet (jobs st)) snapshot ++ jobs st.
Proof.
  intros Hruns. rewrite poll_strong_ok_jobs by done.
  split; [done | apply mergeJobs_prepends].
Qed.

Lemma poll_merges_feed_witness :
  runsThrough chrome (next scenarioA) [item "1"; item "2"; item "3"]
  ∧ jobs (next scenarioB) = mergeJobs (jobs (next scenarioA)) [item "1"; item "2"; item "3"]
  ∧ jobs (next scenarioB)
    = filter (λ job, jobKey job ∉ idSet (jobs (next scenarioA)))
        [item "1"; item "2"; item "3"]
      ++ jobs (next scenarioA).
Proof.
  assert (Hruns : runsThrough chrome (next scenarioA) [item "1"; item "2"; item "3"]).
  { apply safe_runsThrough. intros _. repeat constructor; eexists; reflexivity. }
  split; [exact Hruns|].
  exact (poll_merges_feed chrome 2 [item "1"; item "2"; item "3"] (next scenarioA) Hruns).
Defined.

(** ** Size of the native alert *)

Lemma length_append (s1 s2 : string) :
  String.length (s1 +:+ s2) = String.length s1 + String.length s2.
Proof.
  induction s1 as [|c s1 IH]; [done|].
  change (String c s1 +:+ s2) with (String c (s1 +:+ s2)). cbn. by rewrite IH.
Qed.

Lemma length_truncate (limit : nat) (s : string) :
  String.length (truncate limit s) ≤ limit + 3.
Proof.
  unfold truncate. case_decide; [|lia].
  rewrite length_append, length_substring_prefix by lia. cbn. lia.
Qed.

(** X14: the body of a native alert is never longer than 317 characters,
    however long the title and the description of the job are. *)
Theorem alert_body_bounded (env : Platform) (jobTitle jobDescription body : string) :
  NativeNotification body ∈ showNotification env jobTitle jobDescription →
  String.length body ≤ 317.
Proof.
  unfold showNotification.
  destruct (decide (permission env = granted)), (constructorThrows env); cbn;
    intros Hin; repeat (apply elem_of_cons in Hin as [Hin|Hin]; try discriminate);
    try by apply elem_of_nil in Hin.
  injection Hin as ->. unfold notificationBody.
  rewrite !length_append.
  pose proof (length_truncate 100 jobTitle).
  pose proof (length_truncate 200 jobDescription).
  cbn. lia.
Qed.

Lemma alert_body_bounded_witness :
  NativeNotification (notificationBody (truncate 100 longTitle) "Short brief.")
    ∈ showNotification chrome longTitle "Short brief."
  ∧ String.length (notificationBody (truncate 100 longTitle) "Short brief.") ≤ 317.
Proof.
  assert (Hin : NativeNotification (notificationBody (truncate 100 longTitle) "Short brief.")
                  ∈ showNotification chrome longTitle "Short brief.").
  { apply elem_of_cons. left. reflexivity. }
  split; [exact Hin|].
  exact (alert_body_bounded chrome longTitle "Short brief." _ Hin).
Defined.

(** ** The job table: selection, bulk action, status dialog *)

Lemma includes_empty (hay : string) : includes "" hay = true.
Proof.
  unfold includes. destruct (String.index 0 "" hay) eqn:Hi; [done|].
  apply String.index_correct4 in Hi. lia.
Qed.

Lemma size_list_to_set_le (l : list JsValue) :
  size (list_to_set l : gset JsValue) ≤ length l.
Proof.
  induction l as [|v l IH]; cbn; [by rewrite size_empty|].
  rewrite size_union_alt, size_singleton.
  assert (size (list_to_set l ∖ {[v]} : gset JsValue) ≤ size (list_to_set l : gset JsValue)).
  { apply subseteq_size. intros k. rewrite elem_of_difference. tauto. }
  lia.
Qed.

(** A set built from a list has as many members as the list has entries
    exactly when no entry is repeated. *)
Lemma size_list_to_set_length (l : list JsValue) :
  size (list_to_set l : gset JsValue) = length l ↔ NoDup l.
Proof.
  split; [|apply size_list_to_set].
  induction l as [|v l IH]; [constructor|].
  cbn [list_to_set length]. intros Hsize.
  destruct (decide (v ∈ l)) as [Hin|Hout].
  - exfalso.
    assert (Hsame : ({[v]} ∪ list_to_set l : gset JsValue) = list_to_set l).
    { apply set_eq. intros k. rewrite elem_of_union, elem_of_singleton, elem_of_list_to_set.
      split; [intros [-> | Hk]; done | auto]. }
    rewrite Hsame in Hsize. pose proof (size_list_to_set_le l). lia.
  - constructor; [done|]. apply IH.
    rewrite size_union in Hsize
      by (apply disjoint_singleton_l; by rewrite elem_of_list_to_set).
    rewrite size_singleton in Hsize. lia.
Qed.

Lemma filteredJobs_no_search (toLowerCase : string → string) (t : Table) :
  toLowerCase "" = "" →
  searchTerm t = "" →
  filteredJobs toLowerCase t = filter (λ job, is_Some (title job)) (jobs (page t)).
Proof.
  intros Hlower Hs. unfold filteredJobs. rewrite Hs.
  apply list_filter_iff. intros job. unfold matchesSearch.
  destruct (title job) as [jobTitle|].
  - rewrite Hlower, includes_empty. split; eauto.
  - split; [done|]. by intros [jobTitle HjobTitle].
Qed.

Lemma withStatus_same (job : Job) : withStatus (status job) job = job.
Proof. by destruct job. Qed.

(** X15: a bulk action with nothing selected changes nothing.  Otherwise
    it keeps the feed list's length, order, ids, titles and descriptions,
    gives the chosen status to exactly the jobs whose id is selected, clears
    the selection and the chosen action, and recomputes the analytics from
    the updated list; applying a bulk action again then changes nothing. *)
Theorem bulk_action_effect (action again : string) (t : Table) :
  (size (selectedJobs t) = 0 → handleBulkAction action t = t)
  ∧ (size (selectedJobs t) ≠ 0 →
     selectedJobs (handleBulkAction action t) = ∅
     ∧ bulkAction (handleBulkAction action t) = ""
     ∧ length (jobs (page (handleBulkAction action t))) = length (jobs (page t))
     ∧ id <$> jobs (page (handleBulkAction action t)) = id <$> jobs (page t)
     ∧ title <$> jobs (page (handleBulkAction action t)) = title <$> jobs (page t)
     ∧ description <$> jobs (page (handleBulkAction action t))
       = description <$> jobs (page t)
     ∧ (∀ i job, jobs (page t) !! i = Some job →
          jobs (page (handleBulkAction action t)) !! i
          = Some (if decide (id job ∈ selectedJobs t) then withStatus action job else job))
     ∧ analytics (page (handleBulkAction action t))
       = calculateAnalytics (jobs (page (handleBulkAction action t)))
     ∧ handleBulkAction again (handleBulkAction action t) = handleBulkAction action t).
Proof.
  unfold handleBulkAction. split; intros Hsize.
  - by rewrite decide_True.
  - rewrite decide_False by done. cbn.
    split; [done|]. split; [done|]. split; [by rewrite length_fmap|].
    split; [|split; [|split; [|split; [|done]]]].
    + rewrite <- list_fmap_compose. apply list_fmap_ext. intros i job _. cbn.
      by destruct (decide _).
    + rewrite <- list_fmap_compose. apply list_fmap_ext. intros i job _. cbn.
      by destruct (decide _).
    + rewrite <- list_fmap_compose. apply list_fmap_ext. intros i job _. cbn.
      by destruct (decide _).
    + intros i job Hi. rewrite list_lookup_fmap, Hi. done.
Qed.

(** X16: ticking a row adds its raw id to the selection and unticking it
    removes it, leaving every other member alone; ticking twice is ticking
    once, and ticking then unticking a row that was not selected restores
    the selection; the rest of the table is not touched. *)
Theorem select_job_round_trip (jobId : JsValue) (t : Table) :
  jobId ∈ selectedJobs (handleSelectJob jobId true t)
  ∧ (jobId ∉ selectedJobs (handleSelectJob jobId false t))
  ∧ (∀ checked other, other ≠ jobId →
       (other ∈ selectedJobs (handleSelectJob jobId checked t) ↔ other ∈ selectedJobs t))
  ∧ handleSelectJob jobId true (handleSelectJob jobId true t) = handleSelectJob jobId true t
  ∧ (jobId ∉ selectedJobs t →
     handleSelectJob jobId false (handleSelectJob jobId true t) = t
     ∧ size (selectedJobs (handleSelectJob jobId true t)) = S (size (selectedJobs t)))
  ∧ (∀ checked, page (handleSelectJob jobId checked t) = page t).
Proof.
  unfold handleSelectJob. cbn.
  split; [apply elem_of_union_l, elem_of_singleton_2; done|].
  split; [rewrite elem_of_difference, elem_of_singleton; tauto|].
  split.
  { intros [] other Hne.
    - rewrite elem_of_union, elem_of_singleton. tauto.
    - rewrite elem_of_difference, elem_of_singleton. tauto. }
  split.
  { f_equal. apply set_eq. intros k. rewrite !elem_of_union. tauto. }
  split; [|done].
  intros Hnew. split.
  - destruct t as [p sel b s e ss]. cbn in *. f_equal.
    apply set_eq. intros k.
    rewrite elem_of_difference, elem_of_union, elem_of_singleton.
    split; [tauto|]. intros Hk. split; [tauto|]. by intros ->.
  - rewrite size_union by (apply disjoint_singleton_l; done).
    by rewrite size_singleton.
Qed.

(** X17: the header checkbox, ticked, selects exactly the ids of the jobs
    that have a title containing the search term, both taken to lower case;
    unticked, it empties the selection.  The rows shown are a sublist of the
    feed list in its order, none of them a job without a title; they are all
    the jobs with a title when the search box is empty.  The selection never
    has more members than there are rows shown, and once the checkbox has
    been ticked it shows as ticked exactly when there are rows and no two of
    them share an id.  ([toLowerCase] is the builtin; of it only
    [''.toLowerCase() = ''] is used.) *)
Theorem select_all_follows_search (toLowerCase : string → string) (t : Table) :
  (∀ v, v ∈ selectedJobs (handleSelectAll toLowerCase true t) ↔
        (∃ job jobTitle,
           job ∈ jobs (page t) ∧ id job = v ∧ title job = Some jobTitle
           ∧ includes (toLowerCase (searchTerm t)) (toLowerCase jobTitle) = true))
  ∧ selectedJobs (handleSelectAll toLowerCase false t) = ∅
  ∧ filteredJobs toLowerCase t `sublist_of` jobs (page t)
  ∧ Forall titled (filteredJobs toLowerCase t)
  ∧ (toLowerCase "" = "" → searchTerm t = "" →
     filteredJobs toLowerCase t = filter (λ job, is_Some (title job)) (jobs (page t)))
  ∧ size (selectedJobs (handleSelectAll toLowerCase true t))
    ≤ length (filteredJobs toLowerCase t)
  ∧ (headerChecked toLowerCase (handleSelectAll toLowerCase true t) = true
     ↔ filteredJobs toLowerCase t ≠ [] ∧ NoDup (id <$> filteredJobs toLowerCase t)).
Proof.
  split; [|split; [done|split; [apply sublist_filter|split; [|split; [|split]]]]].
  - intros v. cbn. rewrite elem_of_list_to_set, list_elem_of_fmap.
    unfold filteredJobs, matchesSearch. split.
    + intros (job & -> & [Hm Hin]%list_elem_of_filter).
      destruct (title job) as [jobTitle|] eqn:Ht; [|done].
      exists job, jobTitle. auto.
    + intros (job & jobTitle & Hin & <- & Ht & Hm). exists job. split; [done|].
      apply list_elem_of_filter. by rewrite Ht.
  - apply Forall_forall. intros job [Hm _]%list_elem_of_filter.
    unfold matchesSearch, titled in *. by destruct (title job).
  - apply filteredJobs_no_search.
  - cbn. rewrite <- (length_fmap id (filteredJobs toLowerCase t)).
    apply size_list_to_set_le.
  - unfold headerChecked.
    change (filteredJobs toLowerCase (handleSelectAll toLowerCase true t))
      with (filteredJobs toLowerCase t).
    cbn [selectedJobs handleSelectAll].
    rewrite andb_true_iff, !bool_decide_eq_true.
    rewrite <- (length_fmap id (filteredJobs toLowerCase t)) at 1.
    rewrite size_list_to_set_length.
    destruct (filteredJobs toLowerCase t); cbn; split; intros [H1 H2];
      split; first [done | lia].
Qed.

(** With the search box empty, a job without a title is not among the rows
    shown, and the header checkbox does not select it. *)
Example untitled_job_is_not_listed :
  filteredJobs toLowerCaseAscii
    (mkTable (setJobs [item "1"; untitled "2"] scenarioStart) ∅ "" "" None "")
  = [item "1"]
  ∧ selectedJobs
      (handleSelectAll toLowerCaseAscii true
         (mkTable (setJobs [item "1"; untitled "2"] scenarioStart) ∅ "" "" None ""))
    = {[JsString "1"]}.
Proof. vm_compute. auto. Qed.

(** Two rows that share an id: the header checkbox, once ticked, selects
    one id for the two rows and does not show as ticked. *)
Example repeated_id_unticks_header :
  size (selectedJobs
          (handleSelectAll toLowerCaseAscii true
             (mkTable (setJobs [item "1"; item "1"] scenarioStart) ∅ "" "" None ""))) = 1
  ∧ headerChecked toLowerCaseAscii
      (handleSelectAll toLowerCaseAscii true
         (mkTable (setJobs [item "1"; item "1"] scenarioStart) ∅ "" "" None ""))
    = false.
Proof. vm_compute. auto. Qed.

(** X18: with an empty search box, ticking the header checkbox and applying
    a bulk action gives the chosen status to every job of the feed list that
    has a title (to every job, when all have one), and keeps the ids of the
    list.  ([toLowerCase] is the builtin, of which [''.toLowerCase() = '']
    is assumed.) *)
Theorem select_all_then_bulk (toLowerCase : string → string) (action : string) (t : Table) :
  toLowerCase "" = "" →
  searchTerm t = "" →
  Forall (λ job, titled job → status job = action)
    (jobs (page (handleBulkAction action (handleSelectAll toLowerCase true t))))
  ∧ (Forall titled (jobs (page t)) →
     Forall (λ job, status job = action)
       (jobs (page (handleBulkAction action (handleSelectAll toLowerCase true t)))))
  ∧ id <$> jobs (page (handleBulkAction action (handleSelectAll toLowerCase true t)))
    = id <$> jobs (page t).
Proof.
  intros Hlower Hs.
  assert (Hsel : ∀ job, job ∈ jobs (page t) → titled job →
                        id job ∈ selectedJobs (handleSelectAll toLowerCase true t)).
  { intros job Hin Ht. cbn. rewrite (filteredJobs_no_search toLowerCase t Hlower Hs).
    apply elem_of_list_to_set, list_elem_of_fmap. exists job. split; [done|].
    apply list_elem_of_filter. auto. }
  assert (Hall : Forall (λ job, titled job → status job = action)
                   (jobs (page (handleBulkAction action
                                  (handleSelectAll toLowerCase true t))))).
  { unfold handleBulkAction.
    destruct (decide (size (selectedJobs (handleSelectAll toLowerCase true t)) = 0))
      as [Hempty|Hsome].
    - apply Forall_forall. intros job Hin Ht. exfalso.
      apply size_empty_inv in Hempty.
      apply (not_elem_of_empty (C := gset JsValue) (id job)).
      apply Hempty. by apply Hsel.
    - cbn [page jobs setAnalytics setJobs].
      apply Forall_fmap, Forall_forall. intros job Hin. cbn.
      destruct (decide _) as [Hin'|Hout]; [done|].
      intros Ht. exfalso. apply Hout. by apply Hsel. }
  split; [exact Hall|]. split.
  - intros Htitled. apply Forall_forall. intros job Hin.
    rewrite Forall_forall in Hall. apply (Hall job Hin).
    assert (Hids : title <$> jobs (page (handleBulkAction action
                                          (handleSelectAll toLowerCase true t)))
                   = title <$> jobs (page t)).
    { unfold handleBulkAction. destruct (decide _); [done|]. cbn.
      rewrite <- list_fmap_compose. apply list_fmap_ext. intros i j _. cbn.
      by destruct (decide _). }
    apply list_elem_of_lookup in Hin as [i Hi].
    assert (Hti : (title <$> jobs (page t)) !! i = Some (title job)).
    { rewrite <- Hids, list_lookup_fmap, Hi. done. }
    rewrite list_lookup_fmap in Hti.
    destruct (jobs (page t) !! i) as [old|] eqn:Hold; [|done].
    injection Hti as Hti. unfold titled. rewrite <- Hti.
    rewrite Forall_forall in Htitled. apply Htitled.
    by eapply list_elem_of_lookup_2.
  - unfold handleBulkAction. destruct (decide _); [done|]. cbn.
    rewrite <- list_fmap_compose. apply list_fmap_ext. intros i job _. cbn.
    by destruct (decide _).
Qed.

(** X19: saving the status dialog gives the chosen status to every job
    whose id is strictly equal to the edited job's id and leaves the other
    jobs, the order, the ids and the selection as they were; it closes the
    dialog, and it does not recompute the analytics. *)
Theorem save_status_effect (t : Table) (edited : Job) :
  editStatusJob t = Some edited →
  ∃ t', saveStatus t = Some (t', selectedStatus t)
        ∧ editStatusJob t' = None
        ∧ selectedJobs t' = selectedJobs t
        ∧ analytics (page t') = analytics (page t)
        ∧ id <$> jobs (page t') = id <$> jobs (page t)
        ∧ ∀ i j, jobs (page t) !! i = Some j →
            jobs (page t') !! i
            = Some (if decide (id j = id edited)
                    then withStatus (selectedStatus t) j else j).
Proof.
  intros He. unfold saveStatus. rewrite He. eexists. split; [done|]. cbn.
  split; [done|]. split; [done|]. split; [done|]. split.
  - rewrite <- list_fmap_compose. apply list_fmap_ext. intros i j _. cbn.
    by destruct (decide _).
  - intros i j Hi. by rewrite list_lookup_fmap, Hi.
Qed.

(** X20: opening the status dialog on a job and saving it untouched leaves
    the feed list as it was, provided the jobs sharing that job's id share
    its status. *)
Theorem open_then_save_is_neutral (job : Job) (t : Table) :
  (∀ j, j ∈ jobs (page t) → id j = id job → status j = status job) →
  ∃ t', saveStatus (openStatusDialog job t) = Some (t', status job)
        ∧ jobs (page t') = jobs (page t)
        ∧ editStatusJob t' = None.
Proof.
  intros Hsame. unfold saveStatus, openStatusDialog. cbn. eexists. split; [done|].
  cbn. split; [|done].
  rewrite <- (list_fmap_id (jobs (page t))) at 2.
  apply list_fmap_ext. intros i j Hi. cbn.
  destruct (decide (id j = id job)) as [Hid|]; [|done].
  rewrite <- (Hsame j); [apply withStatus_same | by eapply list_elem_of_lookup_2 | done].
Qed.

(** ** Worked table inputs *)

Lemma select_all_then_bulk_witness :
  toLowerCaseAscii "" = ""
  ∧ searchTerm deskTable = ""
  ∧ Forall (λ job, titled job → status job = "completed")
      (jobs (page (handleBulkAction "completed"
                     (handleSelectAll toLowerCaseAscii true deskTable))))
  ∧ (Forall titled (jobs (page deskTable)) →
     Forall (λ job, status job = "completed")
       (jobs (page (handleBulkAction "completed"
                      (handleSelectAll toLowerCaseAscii true deskTable)))))
  ∧ id <$> jobs (page (handleBulkAction "completed"
                         (handleSelectAll toLowerCaseAscii true deskTable)))
    = id <$> jobs (page deskTable).
Proof.
  split; [reflexivity|]. split; [reflexivity|].
  apply (select_all_then_bulk toLowerCaseAscii "completed" deskTable); reflexivity.
Defined.

Lemma save_status_effect_witness :
  editStatusJob dialogTable = Some (item "1")
  ∧ ∃ t', saveStatus dialogTable = Some (t', selectedStatus dialogTable)
          ∧ editStatusJob t' = None
          ∧ selectedJobs t' = selectedJobs dialogTable
          ∧ analytics (page t') = analytics (page dialogTable)
          ∧ id <$> jobs (page t') = id <$> jobs (page dialogTable)
          ∧ ∀ i j, jobs (page dialogTable) !! i = Some j →
              jobs (page t') !! i
              = Some (if decide (id j = id (item "1"))
                      then withStatus (selectedStatus dialogTable) j else j).
Proof.
  split; [reflexivity|].
  apply (save_status_effect dialogTable (item "1")). reflexivity.
Defined.

Example dialog_save_runs :
  (jobs ∘ page ∘ fst) <$> saveStatus dialogTable
  = Some [item "3"; withStatus "completed" (item "1"); item "2"]
  ∧ completed (analytics (page dialogTable)) = 0.
Proof. vm_compute. auto. Qed.

Lemma open_then_save_is_neutral_witness :
  (∀ j, j ∈ jobs (page deskTable) → id j = id (item "1") → status j = status (item "1"))
  ∧ ∃ t', saveStatus (openStatusDialog (item "1") deskTable) = Some (t', status (item "1"))
          ∧ jobs (page t') = jobs (page deskTable)
          ∧ editStatusJob t' = None.
Proof.
  assert (Hsame : ∀ j, j ∈ jobs (page deskTable) → id j = id (item "1") →
                       status j = status (item "1")).
  { intros j Hj _.
    change (jobs (page deskTable)) with [item "3"; item "1"; item "2"] in Hj.
    repeat (apply elem_of_cons in Hj as [-> | Hj]; [reflexivity|]).
    by apply elem_of_nil in Hj. }
  split; [exact Hsame|].
  exact (open_then_save_is_neutral (item "1") deskTable Hsame).
Defined.

(** ** Description preview *)

Lemma append_empty_r (s : string) : s +:+ "" = s.
Proof.
  induction s as [|c s IH]; [done|].
  change (String c s +:+ "") with (String c (s +:+ "")). by rewrite IH.
Qed.

Lemma append_assoc (s1 s2 s3 : string) : (s1 +:+ s2) +:+ s3 = s1 +:+ (s2 +:+ s3).
Proof.
  induction s1 as [|c s1 IH]; [done|].
  change (String c s1 +:+ s2) with (String c (s1 +:+ s2)).
  change (String c (s1 +:+ s2) +:+ s3) with (String c ((s1 +:+ s2) +:+ s3)).
  by rewrite IH.
Qed.

Lemma splitSpaces_nonempty (s : string) : splitSpaces s ≠ [].
Proof.
  destruct s as [|c s]; cbn; [done|].
  case_decide; [done|]. by destruct (splitSpaces s).
Qed.

Lemma joinSpaces_cons (w : string) (ws : list string) :
  ws ≠ [] → joinSpaces (w :: ws) = w +:+ " " +:+ joinSpaces ws.
Proof. by destruct ws. Qed.

Lemma join_split (s : string) : joinSpaces (splitSpaces s) = s.
Proof.
  induction s as [|c s IH]; [done|]. cbn [splitSpaces].
  case_decide as Hc.
  - rewrite joinSpaces_cons by apply splitSpaces_nonempty. rewrite IH, Hc. done.
  - pose proof (splitSpaces_nonempty s) as Hne.
    destruct (splitSpaces s) as [|w ws]; [done|].
    destruct ws as [|w' ws]; cbn in *; [by rewrite IH|].
    rewrite <- IH. done.
Qed.

Lemma joinSpaces_app (l1 l2 : list string) :
  l1 ≠ [] → l2 ≠ [] →
  joinSpaces (l1 ++ l2) = joinSpaces l1 +:+ " " +:+ joinSpaces l2.
Proof.
  intros H1 H2. induction l1 as [|w l1 IH]; [done|].
  destruct l1 as [|w' l1].
  - cbn [app]. by rewrite joinSpaces_cons.
  - change ((w :: w' :: l1) ++ l2) with (w :: ((w' :: l1) ++ l2)).
    rewrite joinSpaces_cons by done. rewrite IH by done.
    rewrite (joinSpaces_cons w (w' :: l1)) by done.
    by rewrite !append_assoc.
Qed.

(** X21: splitting a text at its spaces and joining the pieces with spaces
    gives the text back; the split always yields at least one piece, and no
    piece holds a space. *)
Theorem split_join_round_trip (s : string) :
  joinSpaces (splitSpaces s) = s
  ∧ splitSpaces s ≠ []
  ∧ Forall (λ w, spaceless w = true) (splitSpaces s).
Proof.
  split; [apply join_split|]. split; [apply splitSpaces_nonempty|].
  induction s as [|c s IH]; cbn [splitSpaces]; [by repeat constructor|].
  case_decide as Hc; [by constructor|].
  destruct (splitSpaces s) as [|w ws].
  - repeat constructor. cbn. by rewrite decide_False.
  - inversion IH as [|? ? Hw Hws]; subst. constructor; [|done].
    cbn. by rewrite decide_False.
Qed.

(** X22: the preview of a row is empty for a job without description; it
    is the description itself when that has at most [n] space-separated
    pieces; otherwise it is the first [n] pieces, which the description
    starts with, followed by '...'. *)
Theorem description_preview_cuts (n : nat) (job : Job) :
  (description job = None ∨ description job = Some "" → descriptionPreview n job = "")
  ∧ (∀ d, description job = Some d → d ≠ "" → 0 < n →
       (length (splitSpaces d) ≤ n → descriptionPreview n job = d)
       ∧ (n < length (splitSpaces d) →
          descriptionPreview n job = joinSpaces (take n (splitSpaces d)) +:+ "..."
          ∧ length (take n (splitSpaces d)) = n
          ∧ ∃ rest, d = joinSpaces (take n (splitSpaces d)) +:+ " " +:+ rest)).
Proof.
  unfold descriptionPreview. split.
  - by intros [-> | ->].
  - intros d -> Hd Hn. destruct d as [|c d]; [done|]. clear Hd.
    set (text := String c d). split.
    + intros Hshort. rewrite take_ge by done.
      rewrite decide_False by lia. by rewrite append_empty_r, join_split.
    + intros Hlong. rewrite decide_True by done. split; [done|].
      split; [rewrite length_take; lia|].
      exists (joinSpaces (drop n (splitSpaces text))).
      rewrite <- joinSpaces_app.
      * by rewrite take_drop, join_split.
      * intros Hnil. apply (f_equal length) in Hnil.
        rewrite length_take in Hnil. change (length (@nil string)) with 0 in Hnil. lia.
      * intros Hnil. apply (f_equal length) in Hnil.
        rewrite length_drop in Hnil. change (length (@nil string)) with 0 in Hnil. lia.
Qed.

Example sample_preview :
  descriptionPreview 12 (mkJob (JsNumber 2) (Some "WordPress Developer for Blog Redesign")
                           (Some "Need a skilled WordPress developer to redesign our company blog. Must have experience with custom themes, plugins, and WordPress best practices.")
                           "in-progress")
  = "Need a skilled WordPress developer to redesign our company blog. Must have...".
Proof. vm_compute. reflexivity. Qed.

(** ** The poll timer across renders *)

Section SchedulerRestart.

Import Scheduler.

Lemma pollingEffect_starts (w : World) :
  timers w = ∅ → relevanceFilter w = "strong" → notificationsEnabled w = true →
  timers (pollingEffect w) = {[ nextTimer w := mkClosure "strong" true ]}
  ∧ pollingInterval (pollingEffect w) = Some (nextTimer w).
Proof.
  intros Hempty Hf He. unfold pollingEffect, startPolling. rewrite Hf, He. cbn.
  destruct (startPollingSees w) as [p|]; cbn; rewrite Hempty, ?delete_empty;
    by rewrite insert_empty.
Qed.

Lemma pollingEffect_tracks (w : World) (i : TimerId) (c : Closure) :
  timers w = ∅ → timers (pollingEffect w) !! i = Some c →
  i = nextTimer w ∧ pollingInterval (pollingEffect w) = Some i.
Proof.
  intros Hempty Hi.
  destruct (decide (relevanceFilter w = "strong")) as [Hf|Hf];
    [destruct (notificationsEnabled w) eqn:He|].
  - destruct (pollingEffect_starts w Hempty Hf He) as [Ht Hp].
    rewrite Ht in Hi. apply lookup_singleton_Some in Hi as [<- _]. auto.
  - unfold pollingEffect in Hi. rewrite He, andb_false_r in Hi. cbn in Hi.
    by rewrite (stopPolling_timers _ _ Hempty), lookup_empty in Hi.
  - unfold pollingEffect in Hi. rewrite bool_decide_eq_false_2 in Hi by done. cbn in Hi.
    by rewrite (stopPolling_timers _ _ Hempty), lookup_empty in Hi.
Qed.

Lemma runCleanups_rerun (startRebuilt stopRebuilt : bool) (w : World) :
  Inv w → startRebuilt || stopRebuilt = true →
  Inv (runCleanups startRebuilt stopRebuilt w)
  ∧ timers (runCleanups startRebuilt stopRebuilt w) = ∅
  ∧ nextTimer (runCleanups startRebuilt stopRebuilt w) = nextTimer w
  ∧ relevanceFilter (runCleanups startRebuilt stopRebuilt w) = relevanceFilter w
  ∧ notificationsEnabled (runCleanups startRebuilt stopRebuilt w) = notificationsEnabled w
  ∧ stopPollingSees (runCleanups startRebuilt stopRebuilt w) = stopPollingSees w.
Proof.
  intros HI Hrun. unfold runCleanups. rewrite Hrun.
  destruct (pollingEffectCleanup_cancels w HI) as (HI2 & Ht2 & _).
  pose proof (pollingEffectCleanup_nextTimer w) as Hn2.
  destruct (pollingEffectCleanup_stopPollingSees w) as (Hs2 & _ & Hf2 & He2 & _).
  destruct stopRebuilt; [|done]. unfold teardownCleanup.
  set (w2 := pollingEffectCleanup w) in *.
  destruct (stopPolling_page (teardownSees w2) w2) as (Hf3 & He3 & _ & Hs3).
  split; [apply Inv_stopPolling; [done | apply (inv_teardownSees w2 HI2)]|].
  split; [by apply stopPolling_timers|].
  split; [by rewrite stopPolling_nextTimer|].
  repeat split; congruence.
Qed.

Lemma runEffects_rerun (startRebuilt stopRebuilt : bool) (w : World) :
  startRebuilt || stopRebuilt = true →
  timers (runEffects startRebuilt stopRebuilt w) = timers (pollingEffect w)
  ∧ pollingInterval (runEffects startRebuilt stopRebuilt w)
    = pollingInterval (pollingEffect w)
  ∧ stopPollingSees (runEffects startRebuilt stopRebuilt w)
    = stopPollingSees (pollingEffect w).
Proof. intros Hrun. unfold runEffects. rewrite Hrun. by destruct stopRebuilt. Qed.

(** Where a timer that is live after a commit comes from. *)
Lemma commit_tracks (filter : string) (enabled fetchRebuilt : bool) (w : World)
    (i : TimerId) (c : Closure) :
  Inv w →
  timers (commit filter enabled fetchRebuilt w) !! i = Some c →
  (i = nextTimer w
   ∧ pollingInterval (commit filter enabled fetchRebuilt w) = Some i
   ∧ stopPollingSees (commit filter enabled fetchRebuilt w) = pollingInterval w)
  ∨ (timers w !! i = Some c ∧ pollingInterval w = stopPollingSees w).
Proof.
  intros HI. unfold commit.
  pose proof (Inv_render filter enabled fetchRebuilt w HI) as HI1.
  destruct (render filter enabled fetchRebuilt w) as [[w1 startRebuilt] stopRebuilt] eqn:Hr.
  cbn [fst] in HI1.
  assert (Hw1 : timers w1 = timers w ∧ nextTimer w1 = nextTimer w
                ∧ stopPollingSees w1 = pollingInterval w).
  { unfold render in Hr. by injection Hr as <- _ _. }
  destruct Hw1 as (Ht1 & Hn1 & Hs1).
  assert (Hstop : stopRebuilt = false → pollingInterval w = stopPollingSees w).
  { unfold render in Hr. injection Hr as _ _ <-. intros Hq.
    apply orb_false_elim in Hq as [_ Hq].
    eapply bool_decide_eq_true_1. by apply negb_false_iff. }
  clear Hr. destruct (startRebuilt || stopRebuilt) eqn:Hrun.
  - destruct (runCleanups_rerun startRebuilt stopRebuilt w1 HI1 Hrun)
      as (HI3 & Ht3 & Hn3 & _ & _ & Hs3).
    destruct (runEffects_rerun startRebuilt stopRebuilt
                (runCleanups startRebuilt stopRebuilt w1) Hrun) as (-> & -> & ->).
    destruct (pollingEffect_installs _ HI3 Ht3) as (_ & _ & _ & _ & _ & Hs4 & _).
    intros Hi. left.
    destruct (pollingEffect_tracks _ i c Ht3 Hi) as [-> Hp].
    split; [congruence|]. split; [done | congruence].
  - apply orb_false_elim in Hrun as [-> ->]. unfold runCleanups, runEffects. cbn.
    rewrite Ht1. intros Hi. right. auto.
Qed.

Lemma exec_tracked (history : list Action) : timerTracked (exec history).
Proof.
  induction history as [|a history IH] using rev_ind.
  - intros i c Hi. change (timers (exec [])) with (∅ : gmap TimerId Closure) in Hi.
    by rewrite lookup_empty in Hi.
  - rewrite exec_snoc. destruct (exec_invariant history) as [HI HS].
    set (w := exec history) in *.
    assert (Hcommit : ∀ filter enabled fetchRebuilt,
              timerTracked (commit filter enabled fetchRebuilt w)).
    { intros filter enabled fetchRebuilt i c Hi.
      destruct (commit_tracks filter enabled fetchRebuilt w i c HI Hi)
        as [(-> & Hp & Hs) | [Hold Heq]].
      - split; [done|]. rewrite Hs. intros Hbad.
        apply (inv_pollingInterval w HI) in Hbad. lia.
      - destruct (IH i c Hold) as [Hp Hs]. congruence. }
    unfold act. destruct (lifecycle w) eqn:Hl, a as [filter enabled fetchRebuilt|];
      try done; try apply Hcommit.
    intros i c Hi. destruct (unmount_timers w HI) as (_ & Ht & _).
    by rewrite Ht, lookup_empty in Hi.
Qed.

(** X23: a timer that is running never survives the next commit: whatever
    the render brings, the commit cancels it, because installing the timer
    changed [pollingInterval] and with it the identity of [stopPolling],
    which the polling effect depends on.  In strong-match mode with
    notifications enabled the commit installs a fresh timer in its place
    and records it in [pollingInterval]. *)
Theorem timer_restarts_on_every_commit (history : list Action) (i : TimerId)
    (filter : string) (enabled fetchRebuilt : bool) :
  is_Some (timers (exec history) !! i) →
  pollingInterval (exec history) = Some i
  ∧ timers (commit filter enabled fetchRebuilt (exec history)) !! i = None
  ∧ (filter = "strong" → enabled = true →
     timers (commit filter enabled fetchRebuilt (exec history))
     = {[ nextTimer (exec history) := mkClosure "strong" true ]}
     ∧ pollingInterval (commit filter enabled fetchRebuilt (exec history))
       = Some (nextTimer (exec history))).
Proof.
  intros [c Hi]. destruct (exec_invariant history) as [HI HS].
  destruct (exec_tracked history i c Hi) as [Hp Hs].
  set (w := exec history) in *.
  split; [done|]. split.
  - destruct (timers (commit filter enabled fetchRebuilt w) !! i) as [c'|] eqn:Hi'; [|done].
    destruct (commit_tracks filter enabled fetchRebuilt w i c' HI Hi')
      as [(Hnew & _) | [_ Heq]].
    + assert (i < nextTimer w) by (apply (inv_live_old w HI); eauto). lia.
    + congruence.
  - intros -> ->. unfold commit.
    pose proof (Inv_render "strong" true fetchRebuilt w HI) as HI1.
    destruct (render "strong" true fetchRebuilt w) as [[w1 startRebuilt] stopRebuilt] eqn:Hr.
    cbn [fst] in HI1.
    assert (Hw1 : nextTimer w1 = nextTimer w ∧ relevanceFilter w1 = "strong"
                  ∧ notificationsEnabled w1 = true ∧ stopRebuilt = true).
    { unfold render in Hr. injection Hr as <- _ <-. repeat split.
      rewrite (bool_decide_eq_false_2 (pollingInterval w = stopPollingSees w))
        by congruence.
      apply orb_true_r. }
    destruct Hw1 as (Hn1 & Hf1 & He1 & ->). clear Hr.
    assert (Hrun : startRebuilt || true = true) by apply orb_true_r.
    destruct (runCleanups_rerun startRebuilt true w1 HI1 Hrun)
      as (_ & Ht3 & Hn3 & Hf3 & He3 & _).
    destruct (runEffects_rerun startRebuilt true (runCleanups startRebuilt true w1) Hrun)
      as (-> & -> & _).
    rewrite <- Hn1, <- Hn3. apply pollingEffect_starts; congruence.
Qed.

Lemma timer_restarts_on_every_commit_witness :
  is_Some (timers (exec [Commit "strong" true false]) !! 1)
  ∧ pollingInterval (exec [Commit "strong" true false]) = Some 1
  ∧ timers (commit "strong" true false (exec [Commit "strong" true false])) !! 1 = None
  ∧ ("strong" = "strong" → true = true →
     timers (commit "strong" true false (exec [Commit "strong" true false]))
     = {[ nextTimer (exec [Commit "strong" true false]) := mkClosure "strong" true ]}
     ∧ pollingInterval (commit "strong" true false (exec [Commit "strong" true false]))
       = Some (nextTimer (exec [Commit "strong" true false]))).
Proof.
  assert (Hlive : is_Some (timers (exec [Commit "strong" true false]) !! 1)).
  { vm_compute. eauto. }
  split; [exact Hlive|].
  exact (timer_restarts_on_every_commit [Commit "strong" true false] 1
           "strong" true false Hlive).
Defined.

End SchedulerRestart.
